(** * H.264 sequence parameter set decoder ([src/util/sps.c])

    A shallow embedding of the bit cursor ([struct getbit]), the unsigned
    Exponential-Golomb reader ([get_ue_golomb]), the scaling-list skipper
    and [h264_sps_decode], followed by the properties of the decoder.

    Conventions of the embedding.
    - [unsigned] is a 32-bit integer and [size_t] a 64-bit one; both are
      carried by [Z] and every operation that can wrap is followed by its
      reduction ([u32], [u64]).
    - The byte buffer handed to the decoder is a [list byte]; its length is
      the [len] argument of the C function.
    - Code that works on the cursor alone is written in state-passing style;
      [h264_sps_decode] and the scaling-list functions, which mix reads,
      stores to the output record and early [return]s, are written in a
      small state monad with an exit. *)

From Stdlib Require Import ZArith List Lia Bool.
From Stdlib Require Import Strings.Byte.
From Equations Require Import Equations.
Import ListNotations.
Open Scope Z_scope.

(** ** Machine integers *)

(** Reduction to [unsigned] (32 bits). *)
Definition u32 (x : Z) : Z := x mod 2 ^ 32.

(** Reduction to [size_t] (64 bits). *)
Definition u64 (x : Z) : Z := x mod 2 ^ 64.

(** Reduction to [uint8_t]. *)
Definition u8 (x : Z) : Z := x mod 2 ^ 8.

(** Conversion of an [unsigned] value to [int] (two's complement), as in
    [i = zeros - 1]. *)
Definition int_of_u32 (x : Z) : Z := if x <? 2 ^ 31 then x else x - 2 ^ 32.

(** Left shift with a 32-bit result, used for [1 << zeros],
    [get_bit(gb) << i], [1u << hsub] and [(2u - flag) << vsub].  For a
    count below 32 this is the value every two's-complement compiler
    produces (for [1 << 31], an [int] shift, the bit pattern
    [0x80000000]).  C leaves a count of 32 or more undefined; the
    embedding fixes it as the mathematical shift reduced to 32 bits
    (hardware that masks the count gives other values).  The choice
    matters for what is decoded from a run of 32 or more zeros, and for
    whatever the decoder then does with such a value; it does not
    matter for shorter runs. *)
Definition shl32 (x n : Z) : Z := u32 (Z.shiftl x n).

(** Error codes of [<errno.h>] (Linux values). *)
Definition EINVAL : Z := 22.
Definition EBADMSG : Z := 74.
Definition ENOTSUP : Z := 95.

(** Constants of [sps.c]. *)
Definition MAX_SPS_COUNT : Z := 32.
Definition MAX_LOG2_MAX_FRAME_NUM : Z := 16.
Definition MACROBLOCK_SIZE : Z := 16.
Definition MAX_MACROBLOCKS : Z := 1048576.

(** Value of a byte as an integer in [0, 256). *)
Definition byte_val (b : byte) : Z := Z.of_N (Byte.to_N b).

(** ** The bit cursor *)

(** [struct getbit]: the buffer, the bit position and the bit length.
    [reads] is a ghost field: the bit positions at which [get_bit]
    dereferenced the buffer, most recent first (the byte index of such
    an access is the position shifted right by 3). *)
Record getbit : Type := mk_getbit {
  buf : list byte;
  pos : Z;
  end_ : Z;
  reads : list Z
}.

Definition getbit_init (b : list byte) (size : Z) : getbit :=
  {| buf := b; pos := 0; end_ := size; reads := [] |}.

Definition getbit_get_left (gb : getbit) : Z :=
  if end_ gb >? pos gb then end_ gb - pos gb else 0.

(** The cursor after one bit has been consumed.  [pos < end] holds
    whenever this is used, so the increment of the [size_t] cannot wrap. *)
Definition gb_step (gb : getbit) : getbit :=
  {| buf := buf gb; pos := pos gb + 1; end_ := end_ gb;
     reads := pos gb :: reads gb |}.

(** [get_bit]: the bit read and the cursor afterwards.  Past the end it
    returns 0 and leaves the cursor alone (the diagnostic written to
    [stderr] is not modelled).  A byte outside the list reads as [x00];
    the ghost field records the access either way. *)
Definition get_bit (gb : getbit) : Z * getbit :=
  if pos gb >=? end_ gb then (0, gb)
  else
    let p := nth (Z.to_nat (Z.shiftr (pos gb) 3)) (buf gb) x00 in
    let tmp := Z.land (Z.shiftr (byte_val p) (7 - Z.land (pos gb) 7)) 1 in
    (tmp, gb_step gb).

(** ** Exponential-Golomb reader *)

(** The [while (1)] loop of [get_ue_golomb]: the result is the return
    code (0 when the loop was left by [break]), [zeros] and the cursor.
    One bit is consumed per iteration, which is the termination
    argument. *)
Equations? ue_zeros (gb : getbit) (zeros : Z) : Z * Z * getbit
  by wf (Z.to_nat (getbit_get_left gb)) lt :=
  ue_zeros gb zeros with Z_lt_dec (getbit_get_left gb) 1 => {
    | left _ => (EBADMSG, zeros, gb)
    | right _ =>
        if fst (get_bit gb) =? 0
        then ue_zeros (snd (get_bit gb)) (u32 (zeros + 1))
        else (0, zeros, snd (get_bit gb)) }.
Proof.
  unfold get_bit, getbit_get_left in *.
  destruct (end_ gb >? pos gb) eqn:E; [|lia].
  destruct (pos gb >=? end_ gb) eqn:F; [lia|]. simpl.
  destruct (end_ gb >? pos gb + 1); lia.
Qed.

(** The [for (i = zeros - 1; i >= 0; i--)] loop; [n] is [i + 1]. *)
Fixpoint ue_info (n : nat) (gb : getbit) (info : Z) : Z * Z * getbit :=
  match n with
  | O => (0, info, gb)
  | S i =>
      if getbit_get_left gb <? 1 then (EBADMSG, info, gb)
      else
        let '(b, gb') := get_bit gb in
        ue_info i gb' (Z.lor info (shl32 b (Z.of_nat i)))
  end.

(** [get_ue_golomb (gb, valp)].  [valp] is the content of the cell the
    pointer designates; the result is the return code, the content of
    the cell afterwards (unchanged on failure) and the cursor.  A call
    with a null [valp] is a call whose cell is discarded. *)
Definition get_ue_golomb (gb : getbit) (valp : Z) : Z * Z * getbit :=
  let '(err, zeros, gb) := ue_zeros gb 0 in
  if negb (err =? 0) then (err, valp, gb)
  else
    let info := shl32 1 zeros in
    let i := int_of_u32 (u32 (zeros - 1)) in
    let '(err, info, gb) := ue_info (Z.to_nat (i + 1)) gb info in
    if negb (err =? 0) then (err, valp, gb)
    else (0, u32 (info - 1), gb).

(** ** The output record *)

(** [struct h264_sps] of [sps.h]. *)
Record h264_sps : Type := mk_sps {
  profile_idc : Z;
  level_idc : Z;
  seq_parameter_set_id : Z;
  chroma_format_idc : Z;
  log2_max_frame_num : Z;
  pic_order_cnt_type : Z;
  max_num_ref_frames : Z;
  pic_width_in_mbs : Z;
  pic_height_in_map_units : Z;
  frame_cropping_flg : bool;
  frame_crop_left_offset : Z;
  frame_crop_right_offset : Z;
  frame_crop_top_offset : Z;
  frame_crop_bottom_offset : Z;
  width_cropped : Z;
  height_cropped : Z;
  width : Z;
  height : Z
}.

(** The record after the initial [memset] of the whole struct. *)
Definition sps_zero : h264_sps :=
  mk_sps 0 0 0 0 0 0 0 0 0 false 0 0 0 0 0 0 0 0.

(** Stores to single fields. *)
Definition set_profile_idc (v : Z) (s : h264_sps) : h264_sps :=
  mk_sps v (level_idc s) (seq_parameter_set_id s) (chroma_format_idc s)
    (log2_max_frame_num s) (pic_order_cnt_type s) (max_num_ref_frames s)
    (pic_width_in_mbs s) (pic_height_in_map_units s) (frame_cropping_flg s)
    (frame_crop_left_offset s) (frame_crop_right_offset s)
    (frame_crop_top_offset s) (frame_crop_bottom_offset s)
    (width_cropped s) (height_cropped s) (width s) (height s).

Definition set_level_idc (v : Z) (s : h264_sps) : h264_sps :=
  mk_sps (profile_idc s) v (seq_parameter_set_id s) (chroma_format_idc s)
    (log2_max_frame_num s) (pic_order_cnt_type s) (max_num_ref_frames s)
    (pic_width_in_mbs s) (pic_height_in_map_units s) (frame_cropping_flg s)
    (frame_crop_left_offset s) (frame_crop_right_offset s)
    (frame_crop_top_offset s) (frame_crop_bottom_offset s)
    (width_cropped s) (height_cropped s) (width s) (height s).

Definition set_seq_parameter_set_id (v : Z) (s : h264_sps) : h264_sps :=
  mk_sps (profile_idc s) (level_idc s) v (chroma_format_idc s)
    (log2_max_frame_num s) (pic_order_cnt_type s) (max_num_ref_frames s)
    (pic_width_in_mbs s) (pic_height_in_map_units s) (frame_cropping_flg s)
    (frame_crop_left_offset s) (frame_crop_right_offset s)
    (frame_crop_top_offset s) (frame_crop_bottom_offset s)
    (width_cropped s) (height_cropped s) (width s) (height s).

Definition set_chroma_format_idc (v : Z) (s : h264_sps) : h264_sps :=
  mk_sps (profile_idc s) (level_idc s) (seq_parameter_set_id s) v
    (log2_max_frame_num s) (pic_order_cnt_type s) (max_num_ref_frames s)
    (pic_width_in_mbs s) (pic_height_in_map_units s) (frame_cropping_flg s)
    (frame_crop_left_offset s) (frame_crop_right_offset s)
    (frame_crop_top_offset s) (frame_crop_bottom_offset s)
    (width_cropped s) (height_cropped s) (width s) (height s).

Definition set_log2_max_frame_num (v : Z) (s : h264_sps) : h264_sps :=
  mk_sps (profile_idc s) (level_idc s) (seq_parameter_set_id s)
    (chroma_format_idc s) v (pic_order_cnt_type s) (max_num_ref_frames s)
    (pic_width_in_mbs s) (pic_height_in_map_units s) (frame_cropping_flg s)
    (frame_crop_left_offset s) (frame_crop_right_offset s)
    (frame_crop_top_offset s) (frame_crop_bottom_offset s)
    (width_cropped s) (height_cropped s) (width s) (height s).

Definition set_pic_order_cnt_type (v : Z) (s : h264_sps) : h264_sps :=
  mk_sps (profile_idc s) (level_idc s) (seq_parameter_set_id s)
    (chroma_format_idc s) (log2_max_frame_num s) v (max_num_ref_frames s)
    (pic_width_in_mbs s) (pic_height_in_map_units s) (frame_cropping_flg s)
    (frame_crop_left_offset s) (frame_crop_right_offset s)
    (frame_crop_top_offset s) (frame_crop_bottom_offset s)
    (width_cropped s) (height_cropped s) (width s) (height s).

Definition set_max_num_ref_frames (v : Z) (s : h264_sps) : h264_sps :=
  mk_sps (profile_idc s) (level_idc s) (seq_parameter_set_id s)
    (chroma_format_idc s) (log2_max_frame_num s) (pic_order_cnt_type s) v
    (pic_width_in_mbs s) (pic_height_in_map_units s) (frame_cropping_flg s)
    (frame_crop_left_offset s) (frame_crop_right_offset s)
    (frame_crop_top_offset s) (frame_crop_bottom_offset s)
    (width_cropped s) (height_cropped s) (width s) (height s).

Definition set_pic_width_in_mbs (v : Z) (s : h264_sps) : h264_sps :=
  mk_sps (profile_idc s) (level_idc s) (seq_parameter_set_id s)
    (chroma_format_idc s) (log2_max_frame_num s) (pic_order_cnt_type s)
    (max_num_ref_frames s) v (pic_height_in_map_units s)
    (frame_cropping_flg s)
    (frame_crop_left_offset s) (frame_crop_right_offset s)
    (frame_crop_top_offset s) (frame_crop_bottom_offset s)
    (width_cropped s) (height_cropped s) (width s) (height s).

Definition set_pic_height_in_map_units (v : Z) (s : h264_sps) : h264_sps :=
  mk_sps (profile_idc s) (level_idc s) (seq_parameter_set_id s)
    (chroma_format_idc s) (log2_max_frame_num s) (pic_order_cnt_type s)
    (max_num_ref_frames s) (pic_width_in_mbs s) v (frame_cropping_flg s)
    (frame_crop_left_offset s) (frame_crop_right_offset s)
    (frame_crop_top_offset s) (frame_crop_bottom_offset s)
    (width_cropped s) (height_cropped s) (width s) (height s).

Definition set_frame_cropping_flg (v : bool) (s : h264_sps) : h264_sps :=
  mk_sps (profile_idc s) (level_idc s) (seq_parameter_set_id s)
    (chroma_format_idc s) (log2_max_frame_num s) (pic_order_cnt_type s)
    (max_num_ref_frames s) (pic_width_in_mbs s) (pic_height_in_map_units s)
    v
    (frame_crop_left_offset s) (frame_crop_right_offset s)
    (frame_crop_top_offset s) (frame_crop_bottom_offset s)
    (width_cropped s) (height_cropped s) (width s) (height s).

Definition set_frame_crop_offsets (l r t b : Z) (s : h264_sps) : h264_sps :=
  mk_sps (profile_idc s) (level_idc s) (seq_parameter_set_id s)
    (chroma_format_idc s) (log2_max_frame_num s) (pic_order_cnt_type s)
    (max_num_ref_frames s) (pic_width_in_mbs s) (pic_height_in_map_units s)
    (frame_cropping_flg s) l r t b
    (width_cropped s) (height_cropped s) (width s) (height s).

Definition set_width_cropped (v : Z) (s : h264_sps) : h264_sps :=
  mk_sps (profile_idc s) (level_idc s) (seq_parameter_set_id s)
    (chroma_format_idc s) (log2_max_frame_num s) (pic_order_cnt_type s)
    (max_num_ref_frames s) (pic_width_in_mbs s) (pic_height_in_map_units s)
    (frame_cropping_flg s)
    (frame_crop_left_offset s) (frame_crop_right_offset s)
    (frame_crop_top_offset s) (frame_crop_bottom_offset s)
    v (height_cropped s) (width s) (height s).

Definition set_height_cropped (v : Z) (s : h264_sps) : h264_sps :=
  mk_sps (profile_idc s) (level_idc s) (seq_parameter_set_id s)
    (chroma_format_idc s) (log2_max_frame_num s) (pic_order_cnt_type s)
    (max_num_ref_frames s) (pic_width_in_mbs s) (pic_height_in_map_units s)
    (frame_cropping_flg s)
    (frame_crop_left_offset s) (frame_crop_right_offset s)
    (frame_crop_top_offset s) (frame_crop_bottom_offset s)
    (width_cropped s) v (width s) (height s).

Definition set_width (v : Z) (s : h264_sps) : h264_sps :=
  mk_sps (profile_idc s) (level_idc s) (seq_parameter_set_id s)
    (chroma_format_idc s) (log2_max_frame_num s) (pic_order_cnt_type s)
    (max_num_ref_frames s) (pic_width_in_mbs s) (pic_height_in_map_units s)
    (frame_cropping_flg s)
    (frame_crop_left_offset s) (frame_crop_right_offset s)
    (frame_crop_top_offset s) (frame_crop_bottom_offset s)
    (width_cropped s) (height_cropped s) v (height s).

Definition set_height (v : Z) (s : h264_sps) : h264_sps :=
  mk_sps (profile_idc s) (level_idc s) (seq_parameter_set_id s)
    (chroma_format_idc s) (log2_max_frame_num s) (pic_order_cnt_type s)
    (max_num_ref_frames s) (pic_width_in_mbs s) (pic_height_in_map_units s)
    (frame_cropping_flg s)
    (frame_crop_left_offset s) (frame_crop_right_offset s)
    (frame_crop_top_offset s) (frame_crop_bottom_offset s)
    (width_cropped s) (height_cropped s) (width s) v.

(** ** The decoder monad *)

(** What a call of [h264_sps_decode] works on: the caller's record and
    the local cursor. *)
Record machine : Type := mk_machine {
  m_sps : h264_sps;
  m_gb : getbit
}.

(** A statement either falls through with a value or leaves the function
    with a return code. *)
Inductive flow (A : Type) : Type :=
| Go (a : A)
| Exit (err : Z).
Arguments Go {A} a.
Arguments Exit {A} err.

Definition M (A : Type) : Type := machine -> flow A * machine.

Definition ret {A} (a : A) : M A := fun s => (Go a, s).

Definition bind {A B} (m : M A) (k : A -> M B) : M B :=
  fun s =>
    match m s with
    | (Go a, s') => k a s'
    | (Exit e, s') => (Exit e, s')
    end.

Notation "x <- m ;; k" := (bind m (fun x => k))
  (at level 61, m at next level, right associativity).
Notation "' pat <- m ;; k" := (bind m (fun x => let 'pat := x in k))
  (at level 61, pat pattern, m at next level, right associativity).
Notation "m ;; k" := (bind m (fun _ => k))
  (at level 61, right associativity).

(** [return err;] *)
Definition Return {A} (err : Z) : M A := fun s => (Exit err, s).

(** [if (c) return err;] *)
Definition return_if (c : bool) (err : Z) : M unit :=
  if c then Return err else ret tt.

(** The current content of the output record. *)
Definition load : M h264_sps := fun s => (Go (m_sps s), s).

(** A store to the output record. *)
Definition store (f : h264_sps -> h264_sps) : M unit :=
  fun s => (Go tt, mk_machine (f (m_sps s)) (m_gb s)).

(** [getbit_init(&gb, b, size)] *)
Definition init_gb (b : list byte) (size : Z) : M unit :=
  fun s => (Go tt, mk_machine (m_sps s) (getbit_init b size)).

(** [getbit_get_left(&gb)] *)
Definition bits_left : M Z := fun s => (Go (getbit_get_left (m_gb s)), s).

(** [get_bit(&gb)] *)
Definition bit : M Z :=
  fun s => let '(b, g) := get_bit (m_gb s) in (Go b, mk_machine (m_sps s) g).

(** [get_ue_golomb(&gb, &x)] for a variable [x] holding [valp]: the
    return code and the content of [x] afterwards.  For a local that has
    not been initialised the content passed is 0; it is never read on the
    failing path. *)
Definition ue (valp : Z) : M (Z * Z) :=
  fun s =>
    let '(err, v, g) := get_ue_golomb (m_gb s) valp in
    (Go (err, v), mk_machine (m_sps s) g).

(** [get_ue_golomb(&gb, NULL)] *)
Definition ue_null : M Z := '(err, _) <- ue 0 ;; ret err.

(** [get_ue_golomb(&gb, &sps->field)] *)
Definition ue_sps (get : h264_sps -> Z) (set : Z -> h264_sps -> h264_sps)
  : M Z :=
  s <- load ;;
  '(err, v) <- ue (get s) ;;
  store (set v) ;;
  ret err.

(** The return code of a function body run on a machine. *)
Definition exec (m : M Z) (s : machine) : Z * machine :=
  let '(r, s') := m s in
  (match r with Go e => e | Exit e => e end, s').

(** ** Scaling lists *)

(** [a[j] = v] on an array held as a list. *)
Fixpoint array_set {A} (a : list A) (j : nat) (v : A) : list A :=
  match a, j with
  | [], _ => []
  | _ :: t, O => v :: t
  | x :: t, S j' => x :: array_set t j' v
  end.

(** The [for (j = 0; j < sizeofscalinglist; j++)] loop of [scaling_list];
    [n] is the number of iterations left.  The result is the return code,
    the array and the cell behind [usedefaultscalingmatrix]. *)
Fixpoint scaling_list_loop (n : nat) (j : Z) (lastscale nextscale : Z)
    (sl : list Z) (udsm : bool) : M (Z * list Z * bool) :=
  match n with
  | O => ret (0, sl, udsm)
  | S n' =>
      '(err, nextscale, udsm) <-
        (if negb (nextscale =? 0) then
           '(err, delta_scale) <- ue 0 ;;
           if negb (err =? 0) then ret (err, nextscale, udsm)
           else
             let nextscale :=
               u32 (u32 (lastscale + delta_scale) + 256) mod 256 in
             ret (0, nextscale, (j =? 0) && (nextscale =? 0))
         else ret (0, nextscale, udsm)) ;;
      if negb (err =? 0) then ret (err, sl, udsm)
      else
        let v := if nextscale =? 0 then lastscale else nextscale in
        scaling_list_loop n' (j + 1) v nextscale
          (array_set sl (Z.to_nat j) v) udsm
  end.

Definition scaling_list (sl : list Z) (sizeofscalinglist : nat)
    (udsm : bool) : M (Z * list Z * bool) :=
  scaling_list_loop sizeofscalinglist 0 8 8 sl udsm.

(** The [for (i = 0; i < ...; i++)] loop of [decode_scaling_matrix]. *)
Fixpoint decode_scaling_matrix_loop (n : nat) (i : Z)
    (scalinglist4x4 scalinglist8x8 : list Z)
    (usedefaultscalingmatrix : list bool) : M Z :=
  match n with
  | O => ret 0
  | S n' =>
      left <- bits_left ;;
      if left <? 1 then ret EBADMSG
      else
        seq_scaling_list_present_flag <- bit ;;
        if negb (seq_scaling_list_present_flag =? 0) then
          if i <? 6 then
            '(err, sl, u) <-
              scaling_list scalinglist4x4 16
                (nth (Z.to_nat i) usedefaultscalingmatrix false) ;;
            if negb (err =? 0) then ret err
            else
              decode_scaling_matrix_loop n' (i + 1) sl scalinglist8x8
                (array_set usedefaultscalingmatrix (Z.to_nat i) u)
          else
            '(err, sl, u) <-
              scaling_list scalinglist8x8 64
                (nth (Z.to_nat i) usedefaultscalingmatrix false) ;;
            if negb (err =? 0) then ret err
            else
              decode_scaling_matrix_loop n' (i + 1) scalinglist4x4 sl
                (array_set usedefaultscalingmatrix (Z.to_nat i) u)
        else
          decode_scaling_matrix_loop n' (i + 1) scalinglist4x4
            scalinglist8x8 usedefaultscalingmatrix
  end.

(** [decode_scaling_matrix]; the three local arrays start with
    unspecified content, taken as zeros. *)
Definition decode_scaling_matrix (chroma_format_idc : Z) : M Z :=
  decode_scaling_matrix_loop
    (if negb (chroma_format_idc =? 3) then 8%nat else 12%nat) 0
    (repeat 0 16) (repeat 0 64) (repeat false 12).

(** ** The decoder *)

(** The profiles that carry the chroma and scaling-matrix fields. *)
Definition is_high_profile (profile_idc : Z) : bool :=
  (profile_idc =? 100) || (profile_idc =? 110) || (profile_idc =? 122) ||
  (profile_idc =? 244) || (profile_idc =? 44) || (profile_idc =? 83) ||
  (profile_idc =? 86) || (profile_idc =? 118) || (profile_idc =? 128) ||
  (profile_idc =? 138) || (profile_idc =? 144).

(** The body of [h264_sps_decode] from the [memset] on. *)
Definition h264_sps_decode_body (buffer : list byte) (len : Z) : M Z :=
  store (fun _ => sps_zero) ;;
  let profile_idc := byte_val (nth 0 buffer x00) in
  store (set_level_idc (byte_val (nth 2 buffer x00))) ;;
  init_gb (skipn 3 buffer) (u64 ((len - 3) * 8)) ;;
  '(err, seq_parameter_set_id) <- ue 0 ;;
  return_if (negb (err =? 0)) err ;;
  return_if (seq_parameter_set_id >=? MAX_SPS_COUNT) EBADMSG ;;
  chroma_format_idc <-
    (if is_high_profile profile_idc then
       '(err, chroma_format_idc) <- ue 1 ;;
       return_if (negb (err =? 0)) err ;;
       (if chroma_format_idc >? 3 then Return EBADMSG
        else if chroma_format_idc =? 3 then
          left <- bits_left ;;
          return_if (left <? 1) EBADMSG ;;
          (* separate_colour_plane_flag *)
          bit ;; ret tt
        else ret tt) ;;
       (* bit_depth_luma/chroma *)
       err1 <- ue_null ;;
       err2 <- ue_null ;;
       let err := Z.lor err1 err2 in
       return_if (negb (err =? 0)) err ;;
       left <- bits_left ;;
       return_if (left <? 2) EBADMSG ;;
       (* qpprime_y_zero_transform_bypass_flag *)
       bit ;;
       seq_scaling_matrix_present_flag <- bit ;;
       (if negb (seq_scaling_matrix_present_flag =? 0) then
          err <- decode_scaling_matrix chroma_format_idc ;;
          return_if (negb (err =? 0)) err
        else ret tt) ;;
       ret chroma_format_idc
     else ret 1) ;;
  err <- ue_sps log2_max_frame_num set_log2_max_frame_num ;;
  return_if (negb (err =? 0)) err ;;
  store (fun s => set_log2_max_frame_num (u32 (log2_max_frame_num s + 4)) s) ;;
  s <- load ;;
  return_if (log2_max_frame_num s >? MAX_LOG2_MAX_FRAME_NUM) EBADMSG ;;
  err <- ue_sps pic_order_cnt_type set_pic_order_cnt_type ;;
  return_if (negb (err =? 0)) err ;;
  s <- load ;;
  (if pic_order_cnt_type s =? 0 then
     (* log2_max_pic_order_cnt_lsb *)
     err <- ue_null ;;
     return_if (negb (err =? 0)) err
   else if pic_order_cnt_type s =? 2 then ret tt
   else Return ENOTSUP) ;;
  err <- ue_sps max_num_ref_frames set_max_num_ref_frames ;;
  return_if (negb (err =? 0)) err ;;
  left <- bits_left ;;
  return_if (left <? 1) EBADMSG ;;
  (* gaps_in_frame_num_value_allowed_flag *)
  bit ;;
  '(err1, mb_w_m1) <- ue 0 ;;
  '(err2, mb_h_m1) <- ue 0 ;;
  let err := Z.lor err1 err2 in
  return_if (negb (err =? 0)) err ;;
  left <- bits_left ;;
  return_if (left <? 1) EBADMSG ;;
  frame_mbs_only_flag <- bit ;;
  store (set_pic_width_in_mbs (u32 (mb_w_m1 + 1))) ;;
  store (set_pic_height_in_map_units (u32 (mb_h_m1 + 1))) ;;
  store (fun s => set_pic_height_in_map_units
                    (u32 (pic_height_in_map_units s
                          * u32 (2 - frame_mbs_only_flag))) s) ;;
  s <- load ;;
  return_if ((pic_width_in_mbs s >=? MAX_MACROBLOCKS) ||
             (pic_height_in_map_units s >=? MAX_MACROBLOCKS)) EBADMSG ;;
  (if frame_mbs_only_flag =? 0 then
     left <- bits_left ;;
     return_if (left <? 1) EBADMSG ;;
     (* mb_adaptive_frame_field_flag *)
     bit ;; ret tt
   else ret tt) ;;
  left <- bits_left ;;
  return_if (left <? 1) EBADMSG ;;
  (* direct_8x8_inference_flag *)
  bit ;;
  left <- bits_left ;;
  return_if (left <? 1) EBADMSG ;;
  flg <- bit ;;
  store (set_frame_cropping_flg (negb (flg =? 0))) ;;
  store (fun s => set_width (u32 (MACROBLOCK_SIZE * pic_width_in_mbs s)) s) ;;
  store (fun s =>
           set_height (u32 (MACROBLOCK_SIZE * pic_height_in_map_units s)) s) ;;
  s <- load ;;
  (if frame_cropping_flg s then
     let vsub := if chroma_format_idc =? 1 then 1 else 0 in
     let hsub := if (chroma_format_idc =? 1) || (chroma_format_idc =? 2)
                 then 1 else 0 in
     let sx := shl32 1 hsub in
     let sy := shl32 (u32 (2 - frame_mbs_only_flag)) vsub in
     '(err1, crop_left) <- ue 0 ;;
     '(err2, crop_right) <- ue 0 ;;
     '(err3, crop_top) <- ue 0 ;;
     '(err4, crop_bottom) <- ue 0 ;;
     let err := Z.lor (Z.lor (Z.lor err1 err2) err3) err4 in
     return_if (negb (err =? 0)) err ;;
     return_if ((u32 (u32 (crop_left + crop_right) * sx) >=? width s) ||
                (u32 (u32 (crop_top + crop_bottom) * sy) >=? height s))
               EBADMSG ;;
     store (set_frame_crop_offsets
              (u32 (sx * crop_left)) (u32 (sx * crop_right))
              (u32 (sy * crop_top)) (u32 (sy * crop_bottom)))
   else ret tt) ;;
  (* success *)
  store (set_profile_idc profile_idc) ;;
  store (set_seq_parameter_set_id (u8 seq_parameter_set_id)) ;;
  store (set_chroma_format_idc (u8 chroma_format_idc)) ;;
  store (fun s =>
           set_width_cropped
             (u32 (u32 (u32 (MACROBLOCK_SIZE * pic_width_in_mbs s)
                        - frame_crop_left_offset s)
                   - frame_crop_right_offset s)) s) ;;
  store (fun s =>
           set_height_cropped
             (u32 (u32 (u32 (MACROBLOCK_SIZE * pic_height_in_map_units s)
                        - frame_crop_top_offset s)
                   - frame_crop_bottom_offset s)) s) ;;
  ret 0.

(** The cursor of a call that returned before [getbit_init]: the local
    [struct getbit] was never used. *)
Definition gb_unused : getbit := getbit_init [] 0.

(** [h264_sps_decode (sps, buf, len)] with the final machine: [sps] is
    the content of the caller's record on entry, [buffer] the [len] bytes
    behind [buf].  Both pointers are valid by typing, which leaves
    [len < 3] as the only way to [EINVAL]. *)
Definition h264_sps_decode_run (sps : h264_sps) (buffer : list byte)
  : Z * machine :=
  let len := Z.of_nat (length buffer) in
  if len <? 3 then (EINVAL, mk_machine sps gb_unused)
  else exec (h264_sps_decode_body buffer len) (mk_machine sps gb_unused).

(** What the caller observes: the return code and the record. *)
Definition h264_sps_decode (sps : h264_sps) (buffer : list byte)
  : Z * h264_sps :=
  let '(err, s) := h264_sps_decode_run sps buffer in (err, m_sps s).

(** ** Vocabulary of the statements *)

(** The bit the cursor is on: bit [7 - pos mod 8] of byte [pos / 8]. *)
Definition peek_bit (g : getbit) : bool :=
  Z.testbit (byte_val (nth (Z.to_nat (pos g / 8)) (buf g) x00))
            (7 - pos g mod 8).

(** The next [n] bits under the cursor, first bit first. *)
Fixpoint peek_bits (n : nat) (g : getbit) : list bool :=
  match n with
  | O => []
  | S n' => peek_bit g :: peek_bits n' (gb_step g)
  end.

(** The cursor after [n] bits have been consumed. *)
Fixpoint gb_skip (n : nat) (g : getbit) : getbit :=
  match n with
  | O => g
  | S n' => gb_skip n' (gb_step g)
  end.

(** The number a bit string denotes, most significant bit first. *)
Definition bits_value (l : list bool) : Z :=
  fold_left (fun a b => 2 * a + Z.b2z b) l 0.

(** The [n] low bits of [x], most significant first. *)
Fixpoint bits_msb (n : nat) (x : Z) : list bool :=
  match n with
  | O => []
  | S n' => Z.testbit x (Z.of_nat n') :: bits_msb n' x
  end.

(** Modelled from the spec: the unsigned Exponential-Golomb encoder,
    which the repository does not contain.  The code of [v] is a unary
    prefix of as many zeros as the binary numeral of [v + 1] has digits
    after its leading one, followed by that numeral; so 0, 1, 2 and 3
    are coded "1", "010", "011" and "00100". *)
Definition ue_encode (v : Z) : list bool :=
  let z := Z.to_nat (Z.log2 (v + 1)) in
  repeat false z ++ bits_msb (S z) (v + 1).

(** The return codes and values of [n] successive calls of
    [get_ue_golomb]. *)
Fixpoint ue_reads (n : nat) (g : getbit) : list (Z * Z) :=
  match n with
  | O => []
  | S n' =>
      let '(err, v, g') := get_ue_golomb g 0 in (err, v) :: ue_reads n' g'
  end.

(** A cursor predicate kept by a statement. *)
Definition keeps {A} (P : getbit -> Prop) (m : M A) : Prop :=
  forall s, P (m_gb s) -> P (m_gb (snd (m s))).

(** The bit positions [n - 1, ..., 1, 0]. *)
Definition positions_below (n : Z) : list Z :=
  map Z.of_nat (rev (seq 0 (Z.to_nat n))).

(** The invariant of a cursor over the buffer [b] with bit length [e]:
    the position stays within the length, the length within the buffer,
    every access recorded was below the length, and the accesses were
    those of the positions below the current one, in increasing order. *)
Definition gb_ok (b : list byte) (e : Z) (g : getbit) : Prop :=
  buf g = b /\ end_ g = e /\ 0 <= pos g <= e /\
  e <= 8 * Z.of_nat (length b) /\
  Forall (fun p => 0 <= p < e) (reads g) /\
  reads g = positions_below (pos g).

(** [wp m Q s]: running [m] from [s] ends in an outcome that satisfies
    [Q]. *)
Definition wp {A} (m : M A) (Q : flow A * machine -> Prop) (s : machine)
  : Prop :=
  Q (m s).

(** The scaling-list code leaves the output record alone, never leaves
    the decoder by itself, and reports 0 or [EBADMSG]. *)
Definition list_code_post {A} (code : A -> Z) (sp : h264_sps)
    (r : flow A * machine) : Prop :=
  match r with
  | (Go a, s') => m_sps s' = sp /\ (code a = 0 \/ code a = EBADMSG)
  | (Exit _, _) => False
  end.

(** The record left behind by a call that failed after the [memset]:
    [level_idc] is set, the fields stored on success only are still 0,
    and the code is [EBADMSG], or [ENOTSUP] from before the cropping
    flag was read. *)
Definition sps_failed (level e : Z) (sp : h264_sps) : Prop :=
  (e = EBADMSG \/ (e = ENOTSUP /\ frame_cropping_flg sp = false)) /\
  level_idc sp = level /\
  profile_idc sp = 0 /\ seq_parameter_set_id sp = 0 /\
  chroma_format_idc sp = 0 /\
  width_cropped sp = 0 /\ height_cropped sp = 0.

(** The horizontal and vertical crop units [sx] and [sy]. *)
Definition crop_unit_x (chroma_format_idc : Z) : Z :=
  let hsub := if (chroma_format_idc =? 1) || (chroma_format_idc =? 2)
              then 1 else 0 in
  shl32 1 hsub.

Definition crop_unit_y (chroma_format_idc frame_mbs_only_flag : Z) : Z :=
  let vsub := if chroma_format_idc =? 1 then 1 else 0 in
  shl32 (u32 (2 - frame_mbs_only_flag)) vsub.

(** The geometry of a record returned with code 0, in terms of the
    [frame_mbs_only_flag] and the four crop values read from the
    stream. *)
Definition sps_geometry (sp : h264_sps)
    (frame_mbs_only_flag crop_left crop_right crop_top crop_bottom : Z)
  : Prop :=
  0 <= frame_mbs_only_flag <= 1 /\
  (0 <= crop_left < 2 ^ 32 /\ 0 <= crop_right < 2 ^ 32 /\
   0 <= crop_top < 2 ^ 32 /\ 0 <= crop_bottom < 2 ^ 32) /\
  0 <= chroma_format_idc sp <= 3 /\
  0 <= pic_width_in_mbs sp < MAX_MACROBLOCKS /\
  0 <= pic_height_in_map_units sp < MAX_MACROBLOCKS /\
  width sp = MACROBLOCK_SIZE * pic_width_in_mbs sp /\
  height sp = MACROBLOCK_SIZE * pic_height_in_map_units sp /\
  (frame_cropping_flg sp = false ->
   frame_crop_left_offset sp = 0 /\ frame_crop_right_offset sp = 0 /\
   frame_crop_top_offset sp = 0 /\ frame_crop_bottom_offset sp = 0) /\
  (frame_cropping_flg sp = true ->
   let sx := crop_unit_x (chroma_format_idc sp) in
   let sy := crop_unit_y (chroma_format_idc sp) frame_mbs_only_flag in
   u32 (u32 (crop_left + crop_right) * sx) < width sp /\
   u32 (u32 (crop_top + crop_bottom) * sy) < height sp /\
   frame_crop_left_offset sp = u32 (sx * crop_left) /\
   frame_crop_right_offset sp = u32 (sx * crop_right) /\
   frame_crop_top_offset sp = u32 (sy * crop_top) /\
   frame_crop_bottom_offset sp = u32 (sy * crop_bottom)) /\
  width_cropped sp
  = u32 (u32 (width sp - frame_crop_left_offset sp)
         - frame_crop_right_offset sp) /\
  height_cropped sp
  = u32 (u32 (height sp - frame_crop_top_offset sp)
         - frame_crop_bottom_offset sp).

(** What [h264_sps_decode_body] ends in: the final [return 0] with a
    record of that geometry, or an early return with a failed record. *)
Definition body_post (buffer : list byte) (r : flow Z * machine) : Prop :=
  match r with
  | (Go e, s) =>
      e = 0 /\
      profile_idc (m_sps s) = byte_val (nth 0 buffer x00) /\
      level_idc (m_sps s) = byte_val (nth 2 buffer x00) /\
      exists fmo cl cr ct cb, sps_geometry (m_sps s) fmo cl cr ct cb
  | (Exit e, s) => sps_failed (byte_val (nth 2 buffer x00)) e (m_sps s)
  end.

(** ** Inputs used in the examples *)

(** A cursor on 32 zero bits, a one and the 32-bit suffix
    [00...01]: the Exponential-Golomb code of [2^32]. *)
Definition long_run_cursor : getbit :=
  getbit_init [x00; x00; x00; x00; x80; x00; x00; x00; x80] 72.

(** A record as a successful call leaves it. *)
Definition sps_baseline_16x16 : h264_sps :=
  {| profile_idc := 66; level_idc := 30; seq_parameter_set_id := 0;
     chroma_format_idc := 1; log2_max_frame_num := 4;
     pic_order_cnt_type := 2; max_num_ref_frames := 0;
     pic_width_in_mbs := 1; pic_height_in_map_units := 1;
     frame_cropping_flg := false;
     frame_crop_left_offset := 0; frame_crop_right_offset := 0;
     frame_crop_top_offset := 0; frame_crop_bottom_offset := 0;
     width_cropped := 16; height_cropped := 16;
     width := 16; height := 16 |}.

(** Baseline profile, one macroblock wide, height field [2^31 - 1]
    (31 zeros, a one, 31 zeros), [frame_mbs_only_flag] 0, no cropping. *)
Definition zero_height_input : list byte :=
  [x42; x00; x1e; xdd; x00; x00; x00; x01; x00; x00; x00; x00; x40].

(** Baseline profile, 16 x 16, cropping flag set, crop values 8, 0, 0, 0:
    [(8 + 0) * 2] equals the width. *)
Definition crop_equal_input : list byte := [x42; x00; x1e; xdd; xf1; x3c].

(** The same with crop values 7, 0, 0, 0. *)
Definition crop_below_input : list byte := [x42; x00; x1e; xdd; xf1; x1c].

(** The cursor of either stream in front of its crop values. *)
Definition crop_cursor (input : list byte) : getbit :=
  mk_getbit (skipn 3 input) 12 24 [].

(** Baseline profile, 16 x 32 with [frame_mbs_only_flag] 0, cropping flag
    set, crop values [2^30], [2^30], [2^29], [2^29].  The payload is
    [1101 1101 1001 1] followed by the four codes (30 zeros and the
    31-bit numeral of [2^30 + 1], twice; 29 zeros and the 30-bit numeral
    of [2^29 + 1], twice) and three padding bits. *)
Definition crop_wrap_input : list byte :=
  [x42; x00; x1e;
   xdd; x98; x00; x00; x00; x10; x00; x00; x00; x40; x00; x00; x00; x80;
   x00; x00; x02; x00; x00; x00; x08; x00; x00; x00; x40; x00; x00; x01;
   x00; x00; x00; x08].

(** The cursor of that stream in front of its crop values. *)
Definition crop_wrap_cursor : getbit :=
  mk_getbit (skipn 3 crop_wrap_input) 13 256 [].

(** The record the call leaves for that stream. *)
Definition crop_wrap_record : h264_sps :=
  {| profile_idc := 66; level_idc := 30; seq_parameter_set_id := 0;
     chroma_format_idc := 1; log2_max_frame_num := 4;
     pic_order_cnt_type := 2; max_num_ref_frames := 0;
     pic_width_in_mbs := 1; pic_height_in_map_units := 2;
     frame_cropping_flg := true;
     frame_crop_left_offset := 2 ^ 31; frame_crop_right_offset := 2 ^ 31;
     frame_crop_top_offset := 2 ^ 31; frame_crop_bottom_offset := 2 ^ 31;
     width_cropped := 16; height_cropped := 32;
     width := 16; height := 32 |}.
(** ** Vocabulary of the further properties *)

(** [g'] is [g] after some reads: the same buffer and bit length, a
    position that did not go back, and no more bits left than before. *)
Definition advanced (g g' : getbit) : Prop :=
  buf g' = buf g /\ end_ g' = end_ g /\ pos g <= pos g' /\
  getbit_get_left g' <= getbit_get_left g /\
  (pos g <= end_ g -> pos g' <= end_ g).

(** The array after [a[j] = ... = a[j + n - 1] = v]. *)
Fixpoint array_fill (a : list Z) (j n : nat) (v : Z) : list Z :=
  match n with
  | O => a
  | S n' => array_fill (array_set a j v) (S j) n' v
  end.

(** What a call of [scaling_list] on an array [sl] with [n] entries to
    write ends in: the output record untouched, the cursor advanced, a
    code 0 or [EBADMSG], an array of the same length, and on success the
    first [n] entries within 1..255 and the others as they were. *)
Definition scaling_list_post (sl : list Z) (n : nat) (s : machine)
    (r : flow (Z * list Z * bool) * machine) : Prop :=
  match r with
  | (Go (e, sl', _), s') =>
      m_sps s' = m_sps s /\ advanced (m_gb s) (m_gb s') /\
      (e = 0 \/ e = EBADMSG) /\ length sl' = length sl /\
      (e = 0 ->
       (forall i, (i < n)%nat -> 1 <= nth i sl' 0 <= 255) /\
       (forall i, (n <= i)%nat -> nth i sl' 0 = nth i sl 0))
  | (Exit _, _) => False
  end.

(** What a call of the scaling-list code ends in, whatever it read: the
    output record untouched, the cursor advanced, and a code that is 0
    or else [EBADMSG] with the cursor exhausted. *)
Definition skipper_post {A} (code : A -> Z) (s : machine)
    (r : flow A * machine) : Prop :=
  match r with
  | (Go a, s') =>
      m_sps s' = m_sps s /\ advanced (m_gb s) (m_gb s') /\
      (code a = 0 \/
       (code a = EBADMSG /\ getbit_get_left (m_gb s') = 0))
  | (Exit _, _) => False
  end.

(** The header fields of a record returned with code 0. *)
Definition sps_header (buffer : list byte) (sp : h264_sps) : Prop :=
  0 <= seq_parameter_set_id sp < MAX_SPS_COUNT /\
  (is_high_profile (byte_val (nth 0 buffer x00)) = false ->
   chroma_format_idc sp = 1) /\
  0 <= log2_max_frame_num sp <= MAX_LOG2_MAX_FRAME_NUM /\
  (pic_order_cnt_type sp = 0 \/ pic_order_cnt_type sp = 2) /\
  0 <= max_num_ref_frames sp < 2 ^ 32.

(** The record returned with [ENOTSUP]: the picture order count type
    that was refused is in it, and nothing behind it was decoded. *)
Definition sps_unsupported (sp : h264_sps) : Prop :=
  0 <= pic_order_cnt_type sp < 2 ^ 32 /\
  pic_order_cnt_type sp <> 0 /\ pic_order_cnt_type sp <> 2 /\
  0 <= log2_max_frame_num sp <= MAX_LOG2_MAX_FRAME_NUM /\
  max_num_ref_frames sp = 0 /\
  pic_width_in_mbs sp = 0 /\ pic_height_in_map_units sp = 0 /\
  width sp = 0 /\ height sp = 0.

Definition body_fields_post (buffer : list byte) (r : flow Z * machine)
  : Prop :=
  match r with
  | (Go e, s) => e = 0 /\ sps_header buffer (m_sps s)
  | (Exit e, s) => e = ENOTSUP -> sps_unsupported (m_sps s)
  end.

(** A stream of the baseline profile whose picture order count type
    is 1. *)
Definition poc_type_1_input : list byte := [x42; x00; x1e; xd0].

(** The cursor [g] has at least [k] bits less left than [g0]. *)
Definition consumed (g0 : getbit) (k : Z) (g : getbit) : Prop :=
  getbit_get_left g + k <= getbit_get_left g0.

(** A run of [h264_sps_decode_body] that reaches the final [return]
    has consumed at least 11 of the [left0] bits it started with. *)
Definition body_bits_post (left0 : Z) (r : flow Z * machine) : Prop :=
  match r with
  | (Go _, s) => getbit_get_left (m_gb s) + 11 <= left0
  | (Exit _, _) => True
  end.

(** [g'] is the cursor [g] over a buffer that has been extended at its
    end: the same position, the bytes of [g] followed by more, and a
    bit length that is not smaller. *)
Definition extends (g g' : getbit) : Prop :=
  (exists extra, buf g' = buf g ++ extra) /\
  pos g' = pos g /\ 0 <= pos g /\
  end_ g <= end_ g' /\ end_ g <= 8 * Z.of_nat (length (buf g)).

(** Two machines with the same record, the cursor of the second
    extending that of the first. *)
Definition sync (s s' : machine) : Prop :=
  m_sps s' = m_sps s /\ extends (m_gb s) (m_gb s').

(** Started with at least [n] bits left, a normal return of [m] with a
    [good] result is matched on every extension of the cursor: the same
    result, and machines that are in step again. *)
Definition sim {A} (n : Z) (good : A -> Prop) (m : M A) : Prop :=
  forall s s' a t,
    sync s s' -> n <= getbit_get_left (m_gb s) ->
    m s = (Go a, t) -> good a ->
    exists t', m s' = (Go a, t') /\ sync t t'.

(** [m] never returns normally with a [good] result. *)
Definition dead {A} (good : A -> Prop) (m : M A) : Prop :=
  forall s a t, m s = (Go a, t) -> ~ good a.

(** * Properties *)

(** ** The bit cursor *)

Lemma getbit_get_left_nonneg (g : getbit) : 0 <= getbit_get_left g.
Proof. unfold getbit_get_left. destruct (end_ g >? pos g) eqn:E; lia. Qed.

Lemma get_bit_empty (g : getbit) :
  getbit_get_left g < 1 -> get_bit g = (0, g).
Proof.
  unfold getbit_get_left, get_bit. intros H.
  destruct (end_ g >? pos g) eqn:E; [lia|].
  destruct (pos g >=? end_ g) eqn:F; [reflexivity|lia].
Qed.

Lemma get_bit_step (g : getbit) :
  1 <= getbit_get_left g -> snd (get_bit g) = gb_step g.
Proof.
  unfold getbit_get_left, get_bit. intros H.
  destruct (end_ g >? pos g) eqn:E; [|lia].
  destruct (pos g >=? end_ g) eqn:F; [lia|reflexivity].
Qed.

Lemma get_bit_range (g : getbit) : 0 <= fst (get_bit g) <= 1.
Proof.
  unfold get_bit. destruct (pos g >=? end_ g); cbn [fst]; [lia|].
  set (x := Z.shiftr _ _).
  pose proof (Z.land_ones x 1 ltac:(lia)) as H.
  change (Z.ones 1) with 1 in H. rewrite H.
  pose proof (Z.mod_pos_bound x (2 ^ 1)). lia.
Qed.

(** ** Results of the Golomb reader *)

Lemma u32_range (x : Z) : 0 <= u32 x < 2 ^ 32.
Proof. unfold u32. apply Z.mod_pos_bound. lia. Qed.

Lemma ue_zeros_code (g : getbit) (z : Z) :
  fst (fst (ue_zeros g z)) = 0 \/
  (fst (fst (ue_zeros g z)) = EBADMSG /\
   getbit_get_left (snd (ue_zeros g z)) = 0).
Proof.
  funelim (ue_zeros g z).
  - right. simpl. pose proof (getbit_get_left_nonneg gb). split; [reflexivity|lia].
  - destruct (fst (get_bit gb) =? 0); [assumption|]. left. reflexivity.
Qed.

Lemma ue_info_code (n : nat) : forall (g : getbit) (info : Z),
  fst (fst (ue_info n g info)) = 0 \/
  (fst (fst (ue_info n g info)) = EBADMSG /\
   getbit_get_left (snd (ue_info n g info)) = 0).
Proof.
  induction n as [|i IH]; intros g info; simpl.
  - left. reflexivity.
  - destruct (getbit_get_left g <? 1) eqn:E.
    + right. simpl. pose proof (getbit_get_left_nonneg g). split; [reflexivity|lia].
    + destruct (get_bit g) as [b g']. apply IH.
Qed.

(** [get_ue_golomb] either fails with [EBADMSG], leaving the cell alone
    and the cursor exhausted, or succeeds with a 32-bit value. *)
Lemma get_ue_golomb_cases (g : getbit) (valp : Z) :
  (exists g', get_ue_golomb g valp = (EBADMSG, valp, g') /\
              getbit_get_left g' = 0) \/
  (exists v g', get_ue_golomb g valp = (0, v, g') /\ 0 <= v < 2 ^ 32).
Proof.
  unfold get_ue_golomb.
  pose proof (ue_zeros_code g 0) as Hz.
  destruct (ue_zeros g 0) as [[e z] g1]. simpl in Hz.
  destruct Hz as [-> | [-> Hl]]; simpl.
  2:{ left. exists g1. auto. }
  set (n := Z.to_nat (int_of_u32 (u32 (z - 1)) + 1)).
  pose proof (ue_info_code n g1 (shl32 1 z)) as Hi.
  destruct (ue_info n g1 (shl32 1 z)) as [[e i] g2]. simpl in Hi.
  destruct Hi as [-> | [-> Hl]]; simpl.
  - right. exists (u32 (i - 1)), g2. split; [reflexivity|apply u32_range].
  - left. exists g2. auto.
Qed.

(** ** Cursor predicates kept by every read *)

Section Preservation.

Variable P : getbit -> Prop.
Hypothesis P_get_bit : forall g, P g -> P (snd (get_bit g)).

Lemma ue_zeros_keeps (g : getbit) (z : Z) :
  P g -> P (snd (ue_zeros g z)).
Proof.
  funelim (ue_zeros g z); intros Hg.
  - assumption.
  - destruct (fst (get_bit gb) =? 0); simpl; auto.
Qed.

Lemma ue_info_keeps (n : nat) : forall (g : getbit) (info : Z),
  P g -> P (snd (ue_info n g info)).
Proof.
  induction n as [|i IH]; intros g info Hg; simpl.
  - assumption.
  - destruct (getbit_get_left g <? 1); [assumption|].
    specialize (P_get_bit g Hg).
    destruct (get_bit g) as [b g']. apply IH. assumption.
Qed.

Lemma get_ue_golomb_keeps (g : getbit) (valp : Z) :
  P g -> P (snd (get_ue_golomb g valp)).
Proof.
  intros Hg. unfold get_ue_golomb.
  pose proof (ue_zeros_keeps g 0 Hg) as H1.
  destruct (ue_zeros g 0) as [[e z] g1]. simpl in H1.
  destruct (negb (e =? 0)); [assumption|].
  pose proof (ue_info_keeps (Z.to_nat (int_of_u32 (u32 (z - 1)) + 1))
                g1 (shl32 1 z) H1) as H2.
  destruct (ue_info _ g1 (shl32 1 z)) as [[e' i] g2]. simpl in H2.
  destruct (negb (e' =? 0)); assumption.
Qed.

End Preservation.

(** ** What the Golomb reader computes *)

Lemma ue_zeros_eq (g : getbit) (z : Z) :
  ue_zeros g z =
  if getbit_get_left g <? 1 then (EBADMSG, z, g)
  else if fst (get_bit g) =? 0
       then ue_zeros (snd (get_bit g)) (u32 (z + 1))
       else (0, z, snd (get_bit g)).
Proof.
  rewrite ue_zeros_equation_1.
  destruct (Z_lt_dec (getbit_get_left g) 1) as [H|H];
    destruct (Z.ltb_spec (getbit_get_left g) 1); try lia; reflexivity.
Qed.

Lemma get_bit_peek (g : getbit) :
  1 <= getbit_get_left g -> get_bit g = (Z.b2z (peek_bit g), gb_step g).
Proof.
  intros H. unfold get_bit, peek_bit, getbit_get_left in *.
  destruct (end_ g >? pos g) eqn:E; [|lia].
  destruct (pos g >=? end_ g) eqn:F; [lia|]. f_equal.
  pose proof (Z.shiftr_div_pow2 (pos g) 3 ltac:(lia)) as H3.
  change (2 ^ 3) with 8 in H3. rewrite H3.
  pose proof (Z.land_ones (pos g) 3 ltac:(lia)) as H7.
  change (Z.ones 3) with 7 in H7. change (2 ^ 3) with 8 in H7. rewrite H7.
  set (x := byte_val _).
  set (k := 7 - pos g mod 8).
  assert (0 <= k) by (pose proof (Z.mod_pos_bound (pos g) 8); lia).
  pose proof (Z.land_ones (Z.shiftr x k) 1 ltac:(lia)) as H1.
  change (Z.ones 1) with 1 in H1. rewrite H1. change (2 ^ 1) with 2.
  rewrite <- Z.bit0_mod, Z.shiftr_spec by lia. reflexivity.
Qed.

Lemma getbit_get_left_step (g : getbit) :
  1 <= getbit_get_left g ->
  getbit_get_left (gb_step g) = getbit_get_left g - 1.
Proof.
  unfold getbit_get_left, gb_step; simpl.
  destruct (end_ g >? pos g) eqn:E; destruct (end_ g >? pos g + 1) eqn:F; lia.
Qed.

Lemma getbit_get_left_skip (n : nat) : forall g,
  Z.of_nat n <= getbit_get_left g ->
  getbit_get_left (gb_skip n g) = getbit_get_left g - Z.of_nat n.
Proof.
  induction n as [|n IH]; intros g H; simpl gb_skip.
  - lia.
  - rewrite IH; rewrite getbit_get_left_step; lia.
Qed.

Lemma pos_gb_skip (n : nat) : forall g,
  pos (gb_skip n g) = pos g + Z.of_nat n.
Proof.
  induction n as [|n IH]; intros g; simpl gb_skip.
  - lia.
  - rewrite IH. simpl. lia.
Qed.

Lemma gb_skip_add (a b : nat) : forall g,
  gb_skip (a + b) g = gb_skip b (gb_skip a g).
Proof. induction a as [|a IH]; intros g; simpl; auto. Qed.

Lemma peek_bits_length (n : nat) : forall g, length (peek_bits n g) = n.
Proof. induction n as [|n IH]; intros g; simpl; auto. Qed.

Lemma peek_bits_add (a b : nat) : forall g,
  peek_bits (a + b) g = peek_bits a g ++ peek_bits b (gb_skip a g).
Proof.
  induction a as [|a IH]; intros g; simpl; [reflexivity|].
  rewrite IH. reflexivity.
Qed.

(** The leading-zero scan over [z] zeros and a one. *)
Lemma ue_zeros_run (z : nat) : forall g zeros,
  peek_bits (S z) g = repeat false z ++ [true] ->
  Z.of_nat (S z) <= getbit_get_left g ->
  0 <= zeros -> zeros + Z.of_nat z < 2 ^ 32 ->
  ue_zeros g zeros = (0, zeros + Z.of_nat z, gb_skip (S z) g).
Proof.
  induction z as [|z IH]; intros g zeros Hp Hl H0 Hz.
  - rewrite ue_zeros_eq.
    destruct (Z.ltb_spec (getbit_get_left g) 1); [lia|].
    rewrite get_bit_peek by lia. simpl in Hp. injection Hp as Hp.
    rewrite Hp. simpl. f_equal. f_equal. lia.
  - rewrite ue_zeros_eq.
    destruct (Z.ltb_spec (getbit_get_left g) 1); [lia|].
    rewrite get_bit_peek by lia.
    change (peek_bits (S (S z)) g)
      with (peek_bit g :: peek_bits (S z) (gb_step g)) in Hp.
    change (repeat false (S z) ++ [true])
      with (false :: (repeat false z ++ [true])) in Hp.
    injection Hp as Hb Hp. rewrite Hb. cbn [fst snd Z.b2z Z.eqb].
    assert (Hu : u32 (zeros + 1) = zeros + 1)
      by (unfold u32; apply Z.mod_small; lia).
    rewrite Hu, IH; try assumption; try lia.
    + f_equal. f_equal. lia.
    + rewrite getbit_get_left_step; lia.
Qed.

Lemma bits_value_fold (l : list bool) : forall a,
  fold_left (fun a b => 2 * a + Z.b2z b) l a =
  a * 2 ^ Z.of_nat (length l) + bits_value l.
Proof.
  unfold bits_value. induction l as [|b l IH]; intros a.
  - simpl. lia.
  - cbn [fold_left length]. rewrite IH, (IH (2 * 0 + Z.b2z b)).
    rewrite Nat2Z.inj_succ, Z.pow_succ_r by lia. ring.
Qed.

Lemma bits_value_cons (b : bool) (l : list bool) :
  bits_value (b :: l) = Z.b2z b * 2 ^ Z.of_nat (length l) + bits_value l.
Proof.
  unfold bits_value at 1. cbn [fold_left]. rewrite bits_value_fold.
  f_equal.
Qed.

Lemma bits_value_bound (l : list bool) :
  0 <= bits_value l < 2 ^ Z.of_nat (length l).
Proof.
  induction l as [|b l IH].
  - unfold bits_value. simpl. lia.
  - rewrite bits_value_cons. cbn [length].
    rewrite Nat2Z.inj_succ, Z.pow_succ_r by lia.
    destruct b; simpl Z.b2z; lia.
Qed.

Lemma lor_disjoint (a b : Z) : Z.land a b = 0 -> Z.lor a b = a + b.
Proof. intros H. pose proof (Z.add_lor_land a b). lia. Qed.

Lemma app_eq_length {A} (a : list A) : forall a' b b',
  length a = length a' -> a ++ b = a' ++ b' -> a = a' /\ b = b'.
Proof.
  induction a as [|x a IH]; intros [|y a'] b b' Hl H; simpl in *;
    try discriminate.
  - auto.
  - injection H as -> H. destruct (IH a' b b') as [-> ->]; auto.
Qed.

(** A set bit added by [|] to a number whose low bits are clear. *)
Lemma lor_pow2_add (q i : Z) (b : bool) :
  0 <= i ->
  Z.lor (2 ^ (i + 1) * q) (Z.b2z b * 2 ^ i)
  = 2 ^ (i + 1) * q + Z.b2z b * 2 ^ i.
Proof.
  intros Hi. apply lor_disjoint. destruct b; simpl Z.b2z.
  2:{ rewrite Z.mul_0_l. apply Z.land_0_r. }
  rewrite Z.mul_1_l.
  apply Z.bits_inj'. intros n Hn.
  rewrite Z.land_spec, Z.bits_0, Z.pow2_bits_eqb by lia.
  destruct (Z.eqb_spec i n) as [->|Hne]; [|apply andb_false_r].
  rewrite Z.mul_comm, Z.mul_pow2_bits_low by lia. reflexivity.
Qed.

Lemma shl32_small (b : bool) (i : Z) :
  0 <= i < 32 -> shl32 (Z.b2z b) i = Z.b2z b * 2 ^ i.
Proof.
  intros Hi. unfold shl32, u32. rewrite Z.shiftl_mul_pow2 by lia.
  apply Z.mod_small.
  assert (2 ^ i < 2 ^ 32) by (apply Z.pow_lt_mono_r; lia).
  assert (0 < 2 ^ i) by (apply Z.pow_pos_nonneg; lia).
  destruct b; simpl Z.b2z; lia.
Qed.

(** The suffix loop over [n] available bits, started on a number whose
    [n] low bits are clear. *)
Lemma ue_info_run (n : nat) : forall g info q,
  info = 2 ^ Z.of_nat n * q -> 0 <= q ->
  2 ^ Z.of_nat n * (q + 1) <= 2 ^ 32 ->
  Z.of_nat n <= getbit_get_left g ->
  ue_info n g info = (0, info + bits_value (peek_bits n g), gb_skip n g).
Proof.
  induction n as [|i IH]; intros g info q Hinfo Hq Hb Hl.
  - simpl. unfold bits_value. simpl. f_equal. f_equal. lia.
  - cbn [ue_info].
    destruct (Z.ltb_spec (getbit_get_left g) 1); [lia|].
    rewrite get_bit_peek by lia.
    rewrite Nat2Z.inj_succ in Hinfo, Hb. unfold Z.succ in Hinfo, Hb.
    assert (Hpos : 0 < 2 ^ Z.of_nat i) by (apply Z.pow_pos_nonneg; lia).
    assert (Hi : Z.of_nat i < 32).
    { destruct (Z.lt_ge_cases (Z.of_nat i) 32) as [|Hge]; [assumption|].
      assert (2 ^ 32 <= 2 ^ Z.of_nat i) by (apply Z.pow_le_mono_r; lia).
      rewrite Z.pow_add_r in Hb by lia. nia. }
    rewrite shl32_small by lia. subst info.
    rewrite lor_pow2_add by lia.
    rewrite (IH (gb_step g) _ (2 * q + Z.b2z (peek_bit g))).
    + cbn [peek_bits gb_skip]. rewrite bits_value_cons, peek_bits_length.
      f_equal. f_equal. lia.
    + rewrite Z.pow_add_r by lia. ring.
    + destruct (peek_bit g); simpl Z.b2z; lia.
    + rewrite Z.pow_add_r in Hb by lia.
      destruct (peek_bit g); simpl Z.b2z; nia.
    + rewrite getbit_get_left_step; lia.
Qed.

Lemma lor_pow2_low (z s : Z) :
  0 <= z -> 0 <= s < 2 ^ z -> Z.lor (Z.shiftl 1 z) s = 2 ^ z + s.
Proof.
  intros Hz Hs. rewrite Z.shiftl_1_l. apply lor_disjoint.
  apply Z.bits_inj'. intros n Hn.
  rewrite Z.land_spec, Z.bits_0, Z.pow2_bits_eqb by lia.
  destruct (Z.eqb_spec z n) as [->|Hne]; [|reflexivity].
  simpl. destruct (Z.eq_dec s 0) as [->|Hs0]; [apply Z.bits_0|].
  apply Z.bits_above_log2; [lia|].
  apply Z.log2_lt_pow2; lia.
Qed.

(** A run of [z < 32] zeros, a one and [z] further bits decode to
    [(1 << z | suffix) - 1], and exactly those [2 z + 1] bits are
    consumed. *)
Lemma get_ue_golomb_value (z : nat) (suffix : list bool) (g : getbit)
    (valp : Z) :
  (z < 32)%nat -> length suffix = z ->
  Z.of_nat (z + S z) <= getbit_get_left g ->
  peek_bits (z + S z) g = repeat false z ++ true :: suffix ->
  get_ue_golomb g valp =
  (0, Z.lor (Z.shiftl 1 (Z.of_nat z)) (bits_value suffix) - 1,
   gb_skip (z + S z) g).
Proof.
  intros Hz Hlen Hl Hp.
  replace (z + S z)%nat with (S z + z)%nat in * by lia.
  rewrite peek_bits_add in Hp.
  replace (repeat false z ++ true :: suffix)
    with ((repeat false z ++ [true]) ++ suffix) in Hp
    by (rewrite <- app_assoc; reflexivity).
  apply app_eq_length in Hp.
  2:{ rewrite peek_bits_length, length_app, repeat_length. simpl. lia. }
  destruct Hp as [Hp1 Hp2].
  unfold get_ue_golomb.
  rewrite (ue_zeros_run z g 0 Hp1) by (try lia;
    assert (2 ^ 5 <= 2 ^ 32) by (apply Z.pow_le_mono_r; lia); lia).
  cbn [negb Z.eqb]. rewrite Z.add_0_l.
  assert (H2z : 2 ^ Z.of_nat z < 2 ^ 32) by (apply Z.pow_lt_mono_r; lia).
  assert (H2p : 0 < 2 ^ Z.of_nat z) by (apply Z.pow_pos_nonneg; lia).
  assert (Hinfo : shl32 1 (Z.of_nat z) = 2 ^ Z.of_nat z * 1).
  { unfold shl32, u32. rewrite Z.shiftl_1_l, Z.mod_small; lia. }
  assert (Hn : Z.to_nat (int_of_u32 (u32 (Z.of_nat z - 1)) + 1) = z).
  { unfold int_of_u32, u32. destruct z as [|z'].
    - reflexivity.
    - rewrite Z.mod_small by lia.
      destruct (Z.ltb_spec (Z.of_nat (S z') - 1) (2 ^ 31)); lia. }
  rewrite Hn.
  rewrite (ue_info_run z (gb_skip (S z) g) _ 1 Hinfo); try lia.
  2:{ replace (2 ^ Z.of_nat z * (1 + 1)) with (2 ^ (Z.of_nat z + 1))
        by (rewrite Z.pow_add_r by lia; ring).
      apply Z.pow_le_mono_r; lia. }
  2:{ rewrite getbit_get_left_skip; lia. }
  cbn [negb Z.eqb]. rewrite Hp2, <- gb_skip_add.
  pose proof (bits_value_bound suffix) as Hs. rewrite Hlen in Hs.
  assert (H31 : 2 ^ Z.of_nat z <= 2 ^ 31) by (apply Z.pow_le_mono_r; lia).
  rewrite Hinfo, lor_pow2_low by lia.
  f_equal. f_equal. unfold u32. rewrite Z.mod_small; lia.
Qed.

(** ** The Exponential-Golomb code *)

Lemma bits_msb_length (n : nat) (x : Z) : length (bits_msb n x) = n.
Proof. induction n as [|n IH]; simpl; auto. Qed.

Lemma bits_msb_value (n : nat) (x : Z) :
  bits_value (bits_msb n x) = x mod 2 ^ Z.of_nat n.
Proof.
  induction n as [|n IH].
  - unfold bits_value. simpl. rewrite Z.mod_1_r. reflexivity.
  - cbn [bits_msb]. rewrite bits_value_cons, bits_msb_length, IH.
    rewrite Z.testbit_spec' by lia.
    rewrite Nat2Z.inj_succ, Z.pow_succ_r by lia.
    assert (0 < 2 ^ Z.of_nat n) by (apply Z.pow_pos_nonneg; lia).
    rewrite (Z.mul_comm 2), Z.rem_mul_r by lia. ring.
Qed.

(** The code of [v] is [log2 (v + 1)] zeros, a one and the remaining
    binary digits of [v + 1]. *)
Lemma ue_encode_shape (v : Z) :
  0 <= v ->
  let z := Z.to_nat (Z.log2 (v + 1)) in
  ue_encode v = repeat false z ++ true :: bits_msb z (v + 1) /\
  bits_value (bits_msb z (v + 1)) = v + 1 - 2 ^ Z.of_nat z.
Proof.
  intros Hv z. unfold ue_encode. fold z. cbn [bits_msb].
  pose proof (Z.log2_nonneg (v + 1)) as Hn.
  pose proof (Z.log2_spec (v + 1) ltac:(lia)) as [Hlo Hhi].
  assert (Hz : Z.of_nat z = Z.log2 (v + 1)) by (unfold z; lia).
  rewrite Hz, Z.bit_log2 by lia. split; [reflexivity|].
  rewrite bits_msb_value, Hz.
  rewrite Z.pow_succ_r in Hhi by lia.
  symmetry. apply Z.mod_unique with (q := 1); lia.
Qed.

Lemma ue_encode_length (v : Z) :
  0 <= v ->
  length (ue_encode v) =
  (Z.to_nat (Z.log2 (v + 1)) + S (Z.to_nat (Z.log2 (v + 1))))%nat.
Proof.
  intros Hv. unfold ue_encode.
  rewrite length_app, repeat_length, bits_msb_length. reflexivity.
Qed.

(** C4. Decoding the Exponential-Golomb code of any [v] below [2^16]
    with [get_ue_golomb] succeeds, yields [v] and advances the cursor by
    exactly the length of the code.  What the reader computes from
    [zeros] leading zeros, the one and the next [zeros] bits is
    [(1 << zeros | suffix) - 1].  The codes of 0, 1, 2 and 3 are "1",
    "010", "011" and "00100" and decode from a byte holding them to 0,
    1, 2 and 3. *)
Theorem ue_golomb_roundtrip :
  (forall (v : Z) (g : getbit) (valp : Z),
     0 <= v < 2 ^ 16 ->
     Z.of_nat (length (ue_encode v)) <= getbit_get_left g ->
     peek_bits (length (ue_encode v)) g = ue_encode v ->
     get_ue_golomb g valp = (0, v, gb_skip (length (ue_encode v)) g) /\
     pos (gb_skip (length (ue_encode v)) g)
     = pos g + Z.of_nat (length (ue_encode v))) /\
  (forall (zeros : nat) (suffix : list bool) (g : getbit) (valp : Z),
     (zeros < 32)%nat -> length suffix = zeros ->
     Z.of_nat (zeros + S zeros) <= getbit_get_left g ->
     peek_bits (zeros + S zeros) g = repeat false zeros ++ true :: suffix ->
     fst (get_ue_golomb g valp)
     = (0, Z.lor (Z.shiftl 1 (Z.of_nat zeros)) (bits_value suffix) - 1)) /\
  (ue_encode 0 = [true] /\
   fst (get_ue_golomb (getbit_init [x80] 1) 7) = (0, 0)) /\
  (ue_encode 1 = [false; true; false] /\
   fst (get_ue_golomb (getbit_init [x40] 3) 7) = (0, 1)) /\
  (ue_encode 2 = [false; true; true] /\
   fst (get_ue_golomb (getbit_init [x60] 3) 7) = (0, 2)) /\
  (ue_encode 3 = [false; false; true; false; false] /\
   fst (get_ue_golomb (getbit_init [x20] 5) 7) = (0, 3)).
Proof.
  split; [|split; [|repeat split; vm_compute; reflexivity]].
  - intros v g valp Hv Hl Hp.
    split; [|apply pos_gb_skip].
    destruct (ue_encode_shape v ltac:(lia)) as [Hs Hval].
    rewrite ue_encode_length in * by lia.
    set (z := Z.to_nat (Z.log2 (v + 1))) in *.
    assert (Hz : (z < 32)%nat).
    { assert (Z.log2 (v + 1) <= Z.log2 (2 ^ 16))
        by (apply Z.log2_le_mono; lia).
      rewrite Z.log2_pow2 in * by lia. unfold z. lia. }
    rewrite Hs in Hp.
    rewrite (get_ue_golomb_value z (bits_msb z (v + 1)) g valp Hz
               (bits_msb_length _ _) Hl Hp).
    f_equal. f_equal.
    pose proof (bits_value_bound (bits_msb z (v + 1))) as Hb.
    rewrite bits_msb_length in Hb.
    rewrite lor_pow2_low by lia. lia.
  - intros zeros suffix g valp Hz Hlen Hl Hp.
    rewrite (get_ue_golomb_value zeros suffix g valp Hz Hlen Hl Hp).
    reflexivity.
Qed.

Lemma ue_golomb_roundtrip_witness :
  (0 <= 5 < 2 ^ 16 /\
   Z.of_nat (length (ue_encode 5))
   <= getbit_get_left (getbit_init [x30] 7) /\
   peek_bits (length (ue_encode 5)) (getbit_init [x30] 7) = ue_encode 5) /\
  get_ue_golomb (getbit_init [x30] 7) 0
  = (0, 5, gb_skip (length (ue_encode 5)) (getbit_init [x30] 7)) /\
  pos (gb_skip (length (ue_encode 5)) (getbit_init [x30] 7))
  = pos (getbit_init [x30] 7) + Z.of_nat (length (ue_encode 5)).
Proof.
  assert (H1 : 0 <= 5 < 2 ^ 16) by lia.
  assert (H2 : Z.of_nat (length (ue_encode 5))
               <= getbit_get_left (getbit_init [x30] 7))
    by (vm_compute; discriminate).
  assert (H3 : peek_bits (length (ue_encode 5)) (getbit_init [x30] 7)
               = ue_encode 5)
    by (vm_compute; reflexivity).
  split; [repeat split; assumption|].
  exact (proj1 ue_golomb_roundtrip 5 (getbit_init [x30] 7) 0 H1 H2 H3).
Defined.

(** C5 as stated fails: on a run of 32 zeros followed by its one and a
    suffix the call succeeds, and the value delivered for this code of
    [2^32] is 0, the value of the one-bit code.  The suffix ends in a
    one, so that the result is the same whether an out-of-range
    [1 << 32] yields 0 or 1. *)
Lemma ue_golomb_long_run_accepted :
  peek_bits 65 long_run_cursor
  = repeat false 32 ++ true :: (repeat false 31 ++ [true]) /\
  2 ^ 32 + bits_value (repeat false 31 ++ [true]) - 1 = 2 ^ 32 /\
  fst (get_ue_golomb long_run_cursor 7) = (0, 0) /\
  pos (snd (get_ue_golomb long_run_cursor 7)) = 65 /\
  fst (fst (get_ue_golomb long_run_cursor 7)) <> EBADMSG.
Proof. vm_compute. repeat split; discriminate. Qed.

(** C5 (amended). [get_ue_golomb] has no overflow check: it fails, with
    [EBADMSG], only when the cursor has run out of bits.  For a run of
    fewer than 32 zeros followed by the one and the suffix it succeeds
    with the exact value [2^zeros + suffix - 1], which fits 32 bits. *)
Theorem ue_golomb_fails_only_on_exhaustion (g : getbit) (valp : Z) :
  (fst (fst (get_ue_golomb g valp)) = 0 \/
   (fst (fst (get_ue_golomb g valp)) = EBADMSG /\
    getbit_get_left (snd (get_ue_golomb g valp)) = 0)) /\
  (forall (z : nat) (suffix : list bool),
     (z < 32)%nat -> length suffix = z ->
     Z.of_nat (z + S z) <= getbit_get_left g ->
     peek_bits (z + S z) g = repeat false z ++ true :: suffix ->
     exists v,
       get_ue_golomb g valp = (0, v, gb_skip (z + S z) g) /\
       v = 2 ^ Z.of_nat z + bits_value suffix - 1 /\
       0 <= v < 2 ^ 32).
Proof.
  split.
  - destruct (get_ue_golomb_cases g valp) as [(g' & -> & Hl)|(v & g' & -> & _)];
      simpl; auto.
  - intros z suffix Hz Hlen Hl Hp.
    pose proof (bits_value_bound suffix) as Hb. rewrite Hlen in Hb.
    assert (H31 : 2 ^ Z.of_nat z <= 2 ^ 31) by (apply Z.pow_le_mono_r; lia).
    assert (H0 : 0 < 2 ^ Z.of_nat z) by (apply Z.pow_pos_nonneg; lia).
    exists (2 ^ Z.of_nat z + bits_value suffix - 1).
    rewrite (get_ue_golomb_value z suffix g valp Hz Hlen Hl Hp).
    rewrite lor_pow2_low by lia. repeat split; lia.
Qed.

Lemma ue_golomb_fails_only_on_exhaustion_witness :
  ((2 < 32)%nat /\ length [true; false] = 2%nat /\
   Z.of_nat (2 + 3) <= getbit_get_left (getbit_init [x30] 5) /\
   peek_bits (2 + 3) (getbit_init [x30] 5)
   = repeat false 2 ++ true :: [true; false]) /\
  exists v,
    get_ue_golomb (getbit_init [x30] 5) 0
    = (0, v, gb_skip (2 + 3) (getbit_init [x30] 5)) /\
    v = 2 ^ Z.of_nat 2 + bits_value [true; false] - 1 /\
    0 <= v < 2 ^ 32.
Proof.
  assert (H1 : (2 < 32)%nat) by lia.
  assert (H2 : length [true; false] = 2%nat) by reflexivity.
  assert (H3 : Z.of_nat (2 + 3) <= getbit_get_left (getbit_init [x30] 5))
    by (vm_compute; discriminate).
  assert (H4 : peek_bits (2 + 3) (getbit_init [x30] 5)
               = repeat false 2 ++ true :: [true; false])
    by (vm_compute; reflexivity).
  split; [repeat split; assumption|].
  exact (proj2 (ue_golomb_fails_only_on_exhaustion (getbit_init [x30] 5) 0)
           2%nat [true; false] H1 H2 H3 H4).
Defined.

(** ** Reading past the end *)

(** C9 as stated fails: a read from an exhausted cursor returns 0, the
    value a read of a genuine zero bit returns. *)
Lemma exhausted_read_returns_zero :
  getbit_get_left (getbit_init [x00] 0) = 0 /\
  getbit_get_left (getbit_init [x00] 1) = 1 /\
  fst (get_bit (getbit_init [x00] 0)) = 0 /\
  fst (get_bit (getbit_init [x00] 0)) = fst (get_bit (getbit_init [x00] 1)).
Proof. vm_compute. repeat split. Qed.

(** C9 (amended). With no bits remaining, [get_bit] performs no access,
    leaves the cursor as it is and returns 0. *)
Theorem get_bit_exhausted (g : getbit) :
  getbit_get_left g = 0 -> get_bit g = (0, g).
Proof. intros H. apply get_bit_empty. lia. Qed.

Lemma get_bit_exhausted_witness :
  getbit_get_left (getbit_init [x80] 0) = 0 /\
  get_bit (getbit_init [x80] 0) = (0, getbit_init [x80] 0).
Proof.
  split; [reflexivity|].
  apply (get_bit_exhausted (getbit_init [x80] 0)). reflexivity.
Defined.

(** ** The end-to-end scenario *)

(** C1. The five bytes 42 00 1E DD E0 decode with return code 0 to the
    baseline-profile record of one macroblock. *)
Theorem sps_decode_baseline_16x16 (sps : h264_sps) :
  h264_sps_decode sps [x42; x00; x1e; xdd; xe0] =
  (0, {| profile_idc := 66; level_idc := 30; seq_parameter_set_id := 0;
         chroma_format_idc := 1; log2_max_frame_num := 4;
         pic_order_cnt_type := 2; max_num_ref_frames := 0;
         pic_width_in_mbs := 1; pic_height_in_map_units := 1;
         frame_cropping_flg := false;
         frame_crop_left_offset := 0; frame_crop_right_offset := 0;
         frame_crop_top_offset := 0; frame_crop_bottom_offset := 0;
         width_cropped := 16; height_cropped := 16;
         width := 16; height := 16 |}).
Proof. vm_compute. reflexivity. Qed.

(** ** The constraint-flag byte *)

(** C10. Two buffers of the same length, at least 3, that agree
    everywhere except possibly at index 1 decode to the same return code
    and the same record. *)
Theorem sps_decode_ignores_byte_1 (sps : h264_sps) (b1 b2 : list byte) :
  length b1 = length b2 -> (3 <= length b1)%nat ->
  (forall i, i <> 1%nat -> nth_error b1 i = nth_error b2 i) ->
  h264_sps_decode sps b1 = h264_sps_decode sps b2.
Proof.
  intros Hlen H3 Hnth.
  destruct b1 as [|x0 [|x1 [|x2 t1]]]; simpl in H3; try lia.
  destruct b2 as [|y0 [|y1 [|y2 t2]]]; simpl in Hlen; try lia.
  pose proof (Hnth 0%nat ltac:(lia)) as E0. simpl in E0.
  pose proof (Hnth 2%nat ltac:(lia)) as E2. simpl in E2.
  injection E0 as ->. injection E2 as ->.
  assert (t1 = t2) as ->.
  { apply nth_error_ext. intros n.
    apply (Hnth (S (S (S n))) ltac:(lia)). }
  unfold h264_sps_decode, h264_sps_decode_run, h264_sps_decode_body.
  cbn [length nth skipn]. reflexivity.
Qed.

Lemma sps_decode_ignores_byte_1_witness :
  (length [x42; x00; x1e; xdd; xe0] = length [x42; xff; x1e; xdd; xe0] /\
   (3 <= length [x42; x00; x1e; xdd; xe0])%nat /\
   (forall i, i <> 1%nat ->
              nth_error [x42; x00; x1e; xdd; xe0] i
              = nth_error [x42; xff; x1e; xdd; xe0] i)) /\
  h264_sps_decode sps_zero [x42; x00; x1e; xdd; xe0]
  = h264_sps_decode sps_zero [x42; xff; x1e; xdd; xe0].
Proof.
  assert (H1 : length [x42; x00; x1e; xdd; xe0]
               = length [x42; xff; x1e; xdd; xe0]) by reflexivity.
  assert (H2 : (3 <= length [x42; x00; x1e; xdd; xe0])%nat)
    by (simpl; lia).
  assert (H3 : forall i, i <> 1%nat ->
                         nth_error [x42; x00; x1e; xdd; xe0] i
                         = nth_error [x42; xff; x1e; xdd; xe0] i).
  { intros i Hi.
    do 6 (destruct i as [|i]; [try reflexivity; congruence|]).
    reflexivity. }
  split; [repeat split; assumption|].
  exact (sps_decode_ignores_byte_1 sps_zero _ _ H1 H2 H3).
Defined.

(** ** Cursor predicates kept by the monadic code *)

Lemma bind_go {A B} (m : M A) (k : A -> M B) (s s' : machine) (a : A) :
  m s = (Go a, s') -> bind m k s = k a s'.
Proof. intros H. unfold bind. rewrite H. reflexivity. Qed.

Section Keeps.

Variable P : getbit -> Prop.
Hypothesis P_get_bit : forall g, P g -> P (snd (get_bit g)).

Lemma keeps_ret {A} (a : A) : keeps P (ret a).
Proof. intros s H. exact H. Qed.

Lemma keeps_Return {A} (e : Z) : keeps P (@Return A e).
Proof. intros s H. exact H. Qed.

Lemma keeps_bind {A B} (m : M A) (k : A -> M B) :
  keeps P m -> (forall a, keeps P (k a)) -> keeps P (bind m k).
Proof.
  intros Hm Hk s H. unfold bind. specialize (Hm s H).
  destruct (m s) as [[a|e] s']; simpl in *; [apply Hk|]; assumption.
Qed.

Lemma keeps_return_if (c : bool) (e : Z) : keeps P (return_if c e).
Proof. destruct c; intros s H; exact H. Qed.

Lemma keeps_load : keeps P load.
Proof. intros s H. exact H. Qed.

Lemma keeps_store (f : h264_sps -> h264_sps) : keeps P (store f).
Proof. intros s H. exact H. Qed.

Lemma keeps_bits_left : keeps P bits_left.
Proof. intros s H. exact H. Qed.

Lemma keeps_bit : keeps P bit.
Proof.
  intros s H. unfold bit. specialize (P_get_bit _ H).
  destruct (get_bit (m_gb s)) as [b g]. exact P_get_bit.
Qed.

Lemma keeps_ue (valp : Z) : keeps P (ue valp).
Proof.
  intros s H. unfold ue.
  pose proof (get_ue_golomb_keeps P P_get_bit (m_gb s) valp H) as H'.
  destruct (get_ue_golomb (m_gb s) valp) as [[e v] g]. exact H'.
Qed.

Lemma keeps_ue_null : keeps P ue_null.
Proof.
  unfold ue_null. apply keeps_bind; [apply keeps_ue|].
  intros [e v]. apply keeps_ret.
Qed.

Lemma keeps_ue_sps get set : keeps P (ue_sps get set).
Proof.
  unfold ue_sps. apply keeps_bind; [apply keeps_load|]. intros s0.
  apply keeps_bind; [apply keeps_ue|]. intros [e v].
  apply keeps_bind; [apply keeps_store|]. intros _. apply keeps_ret.
Qed.

Lemma keeps_scaling_list_loop (n : nat) :
  forall j lastscale nextscale sl udsm,
    keeps P (scaling_list_loop n j lastscale nextscale sl udsm).
Proof.
  induction n as [|n IH]; intros j lastscale nextscale sl udsm;
    cbn [scaling_list_loop].
  - apply keeps_ret.
  - apply keeps_bind.
    + destruct (negb (nextscale =? 0)); [|apply keeps_ret].
      apply keeps_bind; [apply keeps_ue|]. intros [e d].
      destruct (negb (e =? 0)); apply keeps_ret.
    + intros [[e nx] u]. destruct (negb (e =? 0)); [apply keeps_ret|].
      apply IH.
Qed.

Lemma keeps_decode_scaling_matrix_loop (n : nat) :
  forall i s4 s8 ud, keeps P (decode_scaling_matrix_loop n i s4 s8 ud).
Proof.
  induction n as [|n IH]; intros i s4 s8 ud;
    cbn [decode_scaling_matrix_loop].
  - apply keeps_ret.
  - apply keeps_bind; [apply keeps_bits_left|]. intros l.
    destruct (l <? 1); [apply keeps_ret|].
    apply keeps_bind; [apply keeps_bit|]. intros f.
    destruct (negb (f =? 0)); [|apply IH].
    destruct (i <? 6);
      (apply keeps_bind; [apply keeps_scaling_list_loop|]);
      intros [[e sl] u]; (destruct (negb (e =? 0)); [apply keeps_ret|]);
      apply IH.
Qed.

Lemma keeps_decode_scaling_matrix (c : Z) :
  keeps P (decode_scaling_matrix c).
Proof. apply keeps_decode_scaling_matrix_loop. Qed.

End Keeps.

(** Discharges [keeps] goals over code built from the statements above. *)
Ltac keeps_step HP :=
  match goal with
  | |- keeps _ (bind _ _) => apply keeps_bind; [|intros ?]
  | |- keeps _ (ret _) => apply keeps_ret
  | |- keeps _ (Return _) => apply keeps_Return
  | |- keeps _ (return_if _ _) => apply keeps_return_if
  | |- keeps _ load => apply keeps_load
  | |- keeps _ (store _) => apply keeps_store
  | |- keeps _ bits_left => apply keeps_bits_left
  | |- keeps _ bit => apply (keeps_bit _ HP)
  | |- keeps _ (ue _) => apply (keeps_ue _ HP)
  | |- keeps _ ue_null => apply (keeps_ue_null _ HP)
  | |- keeps _ (ue_sps _ _) => apply (keeps_ue_sps _ HP)
  | |- keeps _ (decode_scaling_matrix _) =>
      apply (keeps_decode_scaling_matrix _ HP)
  | |- keeps _ (if ?c then _ else _) => destruct c
  | |- keeps _ (let '(_, _) := ?p in _) => destruct p
  end.

Lemma positions_below_succ (n : Z) :
  0 <= n -> positions_below (n + 1) = n :: positions_below n.
Proof.
  intros Hn. unfold positions_below.
  replace (Z.to_nat (n + 1)) with (S (Z.to_nat n)) by lia.
  rewrite seq_S, rev_app_distr. cbn [rev app map Nat.add].
  f_equal. lia.
Qed.

Lemma gb_ok_get_bit (b : list byte) (e : Z) (g : getbit) :
  gb_ok b e g -> gb_ok b e (snd (get_bit g)).
Proof.
  intros (Hb & He & Hp & Hlen & Hr & Hlog). unfold get_bit.
  destruct (Z.geb_spec (pos g) (end_ g)); simpl.
  - repeat split; auto; lia.
  - unfold gb_ok, gb_step; cbn [buf pos end_ reads].
    repeat split; auto; try lia.
    + constructor; [lia|assumption].
    + rewrite positions_below_succ, Hlog by lia. reflexivity.
Qed.

(** From the call of [getbit_init] on, the cursor of [h264_sps_decode]
    satisfies its invariant whatever the function returns. *)
Lemma h264_sps_decode_body_gb_ok (buffer : list byte) (s : machine) :
  let len := Z.of_nat (length buffer) in
  3 <= len ->
  gb_ok (skipn 3 buffer) (u64 ((len - 3) * 8))
        (m_gb (snd (h264_sps_decode_body buffer len s))).
Proof.
  intros len Hlen. unfold h264_sps_decode_body.
  erewrite bind_go by reflexivity. cbv beta zeta.
  erewrite bind_go by reflexivity.
  erewrite bind_go by reflexivity.
  match goal with
  | |- gb_ok ?b ?e (m_gb (snd (?rest ?s0))) =>
      assert (Hk : keeps (gb_ok b e) rest);
      [|apply Hk; cbn [m_gb]]
  end.
  - pose proof (gb_ok_get_bit (skipn 3 buffer) (u64 ((len - 3) * 8))) as HP.
    repeat keeps_step HP.
  - unfold gb_ok, getbit_init; cbn [buf pos end_ reads].
    pose proof (Z.mod_pos_bound ((len - 3) * 8) (2 ^ 64) ltac:(lia)).
    assert (u64 ((len - 3) * 8) <= (len - 3) * 8)
      by (apply Z.mod_le; lia).
    rewrite length_skipn. unfold u64 in *. repeat split; try lia.
    constructor.
Qed.

(** ** Stepping through the monadic code *)

(** The rules below forget the cursor: after a read it is an arbitrary
    one.  They track the output record and the values read, which is
    what the statements about the record need. *)

Lemma wp_bind {A B} (m : M A) (k : A -> M B) Q s :
  wp m (fun r => match r with
                 | (Go a, s') => wp (k a) Q s'
                 | (Exit e, s') => Q (Exit e, s')
                 end) s ->
  wp (bind m k) Q s.
Proof.
  unfold wp, bind. destruct (m s) as [[a|e] s']; auto.
Qed.

Lemma wp_ret {A} (a : A) Q s : Q (Go a, s) -> wp (ret a) Q s.
Proof. auto. Qed.

Lemma wp_Return {A} (e : Z) (Q : flow A * machine -> Prop) s :
  Q (Exit e, s) -> wp (Return e) Q s.
Proof. auto. Qed.

Lemma wp_return_if (c : bool) (e : Z) Q s :
  (c = true -> Q (Exit e, s)) -> (c = false -> Q (Go tt, s)) ->
  wp (return_if c e) Q s.
Proof. unfold wp, return_if. destruct c; auto. Qed.

Lemma wp_if {A} (c : bool) (m1 m2 : M A) Q s :
  (c = true -> wp m1 Q s) -> (c = false -> wp m2 Q s) ->
  wp (if c then m1 else m2) Q s.
Proof. destruct c; auto. Qed.

Lemma wp_load Q s : Q (Go (m_sps s), s) -> wp load Q s.
Proof. auto. Qed.

Lemma wp_store f Q s :
  Q (Go tt, mk_machine (f (m_sps s)) (m_gb s)) -> wp (store f) Q s.
Proof. auto. Qed.

Lemma wp_init_gb b e Q s :
  Q (Go tt, mk_machine (m_sps s) (getbit_init b e)) -> wp (init_gb b e) Q s.
Proof. auto. Qed.

Lemma wp_bits_left Q s :
  (forall l, Q (Go l, s)) -> wp bits_left Q s.
Proof. unfold wp, bits_left. auto. Qed.

Lemma wp_bit Q s :
  (forall b g, 0 <= b <= 1 -> Q (Go b, mk_machine (m_sps s) g)) ->
  wp bit Q s.
Proof.
  intros H. unfold wp, bit.
  pose proof (get_bit_range (m_gb s)) as Hr.
  destruct (get_bit (m_gb s)) as [b g]. apply H. exact Hr.
Qed.

Lemma wp_ue (valp : Z) Q s :
  (forall g, Q (Go (EBADMSG, valp), mk_machine (m_sps s) g)) ->
  (forall v g, 0 <= v < 2 ^ 32 -> Q (Go (0, v), mk_machine (m_sps s) g)) ->
  wp (ue valp) Q s.
Proof.
  intros Hf Hs. unfold wp, ue.
  destruct (get_ue_golomb_cases (m_gb s) valp)
    as [(g' & -> & _)|(v & g' & -> & Hv)]; auto.
Qed.

Lemma wp_ue_null Q s :
  (forall g, Q (Go EBADMSG, mk_machine (m_sps s) g)) ->
  (forall g, Q (Go 0, mk_machine (m_sps s) g)) ->
  wp ue_null Q s.
Proof.
  intros Hf Hs. unfold ue_null. apply wp_bind, wp_ue; intros; apply wp_ret; auto.
Qed.

Lemma wp_ue_sps get set Q s :
  (forall g, Q (Go EBADMSG,
                mk_machine (set (get (m_sps s)) (m_sps s)) g)) ->
  (forall v g, 0 <= v < 2 ^ 32 ->
               Q (Go 0, mk_machine (set v (m_sps s)) g)) ->
  wp (ue_sps get set) Q s.
Proof.
  intros Hf Hs. unfold ue_sps.
  apply wp_bind, wp_load. apply wp_bind, wp_ue; intros;
    (apply wp_bind, wp_store; apply wp_ret); cbn [m_sps m_gb]; auto.
Qed.

Lemma scaling_list_loop_post (n : nat) :
  forall j lastscale nextscale sl udsm s,
    wp (scaling_list_loop n j lastscale nextscale sl udsm)
       (list_code_post (fun a => fst (fst a)) (m_sps s)) s.
Proof.
  induction n as [|n IH]; intros j lastscale nextscale sl udsm s;
    cbn [scaling_list_loop].
  - apply wp_ret. unfold list_code_post. auto.
  - apply wp_bind. apply wp_if; intros _.
    + apply wp_bind, wp_ue.
      * intros g. apply wp_ret, wp_ret. unfold list_code_post. auto.
      * intros v g Hv. apply wp_ret.
        cbn [negb Z.eqb]. apply (IH _ _ _ _ _ (mk_machine (m_sps s) g)).
    + apply wp_ret. cbn [negb Z.eqb]. apply IH.
Qed.

Lemma wp_scaling_list (sl : list Z) (n : nat) (u : bool) Q s :
  (forall e sl' u' g, e = 0 \/ e = EBADMSG ->
                      Q (Go (e, sl', u'), mk_machine (m_sps s) g)) ->
  wp (scaling_list sl n u) Q s.
Proof.
  intros H. unfold scaling_list.
  pose proof (scaling_list_loop_post n 0 8 8 sl u s) as Hp.
  unfold wp in *.
  destruct (scaling_list_loop n 0 8 8 sl u s) as [[[[e sl'] u']|e] [sp g]];
    unfold list_code_post in Hp; cbn [fst m_sps] in Hp; [|contradiction].
  destruct Hp as [Hsp He]. subst sp. apply H. exact He.
Qed.

Lemma decode_scaling_matrix_loop_post (n : nat) :
  forall i s4 s8 ud s,
    wp (decode_scaling_matrix_loop n i s4 s8 ud)
       (list_code_post (fun a => a) (m_sps s)) s.
Proof.
  induction n as [|n IH]; intros i s4 s8 ud s;
    cbn [decode_scaling_matrix_loop].
  - apply wp_ret. unfold list_code_post. auto.
  - apply wp_bind, wp_bits_left. intros l.
    destruct (l <? 1); [apply wp_ret; unfold list_code_post; auto|].
    apply wp_bind, wp_bit. intros b g _.
    destruct (negb (b =? 0));
      [|apply (IH _ _ _ _ (mk_machine (m_sps s) g))].
    destruct (i <? 6); apply wp_bind, wp_scaling_list;
      intros e sl' u' g' [-> | ->]; cbn [m_sps negb Z.eqb];
      try apply (IH _ _ _ _ (mk_machine (m_sps s) g'));
      apply wp_ret; unfold list_code_post; cbn [m_sps]; auto.
Qed.

Lemma wp_decode_scaling_matrix (c : Z) Q s :
  (forall e g, e = 0 \/ e = EBADMSG ->
               Q (Go e, mk_machine (m_sps s) g)) ->
  wp (decode_scaling_matrix c) Q s.
Proof.
  intros H. unfold decode_scaling_matrix.
  pose proof (decode_scaling_matrix_loop_post
                (if negb (c =? 3) then 8%nat else 12%nat) 0
                (repeat 0 16) (repeat 0 64) (repeat false 12) s) as Hp.
  unfold wp in *.
  destruct (decode_scaling_matrix_loop _ _ _ _ _ s) as [[e|e] [sp g]];
    unfold list_code_post in Hp; cbn [m_sps] in Hp; [|contradiction].
  destruct Hp as [Hsp He]. subst sp. apply H. exact He.
Qed.

Ltac wp_clean H :=
  try (exfalso;
       cbv [negb Z.eqb Z.lor Pos.lor Pos.eqb Pos.succ EBADMSG ENOTSUP] in H;
       discriminate H).

Ltac wp_norm :=
  cbv beta iota;
  cbn [m_sps m_gb fst snd sps_zero
       set_profile_idc set_level_idc set_seq_parameter_set_id
       set_chroma_format_idc set_log2_max_frame_num set_pic_order_cnt_type
       set_max_num_ref_frames set_pic_width_in_mbs
       set_pic_height_in_map_units set_frame_cropping_flg
       set_frame_crop_offsets set_width_cropped set_height_cropped
       set_width set_height
       profile_idc level_idc seq_parameter_set_id chroma_format_idc
       log2_max_frame_num pic_order_cnt_type max_num_ref_frames
       pic_width_in_mbs pic_height_in_map_units frame_cropping_flg
       frame_crop_left_offset frame_crop_right_offset
       frame_crop_top_offset frame_crop_bottom_offset
       width_cropped height_cropped width height].

(** One statement of the code under [wp]. *)
Ltac wp_step :=
  lazymatch goal with
  | |- wp (bind _ _) _ _ => apply wp_bind
  | |- wp (ret _) _ _ => apply wp_ret
  | |- wp (Return _) _ _ => apply wp_Return
  | |- wp (return_if _ _) _ _ =>
      apply wp_return_if;
      (let H := fresh "Hc" in intros H; wp_clean H)
  | |- wp load _ _ => apply wp_load
  | |- wp (store _) _ _ => apply wp_store
  | |- wp (init_gb _ _) _ _ => apply wp_init_gb
  | |- wp bits_left _ _ => apply wp_bits_left; intros ?
  | |- wp bit _ _ => apply wp_bit; intros ? ? ?
  | |- wp (ue _) _ _ => apply wp_ue; [intros ?|intros ? ? ?]
  | |- wp ue_null _ _ => apply wp_ue_null; intros ?
  | |- wp (ue_sps _ _) _ _ => apply wp_ue_sps; [intros ?|intros ? ? ?]
  | |- wp (decode_scaling_matrix _) _ _ =>
      apply wp_decode_scaling_matrix;
      (let H := fresh "He" in intros ? ? H; destruct H as [-> | ->])
  | |- wp (if _ then _ else _) _ _ =>
      apply wp_if; (let H := fresh "Hc" in intros H; wp_clean H)
  end; wp_norm.

(** Projections of an explicit record. *)
Ltac sps_fields :=
  cbv [m_sps sps_zero
       set_profile_idc set_level_idc set_seq_parameter_set_id
       set_chroma_format_idc set_log2_max_frame_num set_pic_order_cnt_type
       set_max_num_ref_frames set_pic_width_in_mbs
       set_pic_height_in_map_units set_frame_cropping_flg
       set_frame_crop_offsets set_width_cropped set_height_cropped
       set_width set_height
       profile_idc level_idc seq_parameter_set_id chroma_format_idc
       log2_max_frame_num pic_order_cnt_type max_num_ref_frames
       pic_width_in_mbs pic_height_in_map_units frame_cropping_flg
       frame_crop_left_offset frame_crop_right_offset
       frame_crop_top_offset frame_crop_bottom_offset
       width_cropped height_cropped width height].

Lemma u8_small (c : Z) : 0 <= c <= 3 -> u8 c = c.
Proof. intros H. unfold u8. apply Z.mod_small. lia. Qed.

Lemma macroblocks_checked (pw ph : Z) :
  (pw >=? MAX_MACROBLOCKS) || (ph >=? MAX_MACROBLOCKS) = false ->
  pw < MAX_MACROBLOCKS /\ ph < MAX_MACROBLOCKS.
Proof.
  intros H. apply orb_false_elim in H. destruct H as [H1 H2].
  rewrite Z.geb_leb in H1, H2. apply Z.leb_gt in H1, H2. auto.
Qed.

Lemma pixels_no_wrap (n : Z) :
  0 <= n < MAX_MACROBLOCKS ->
  u32 (MACROBLOCK_SIZE * n) = MACROBLOCK_SIZE * n.
Proof.
  unfold MAX_MACROBLOCKS, MACROBLOCK_SIZE, u32. intros H.
  apply Z.mod_small. lia.
Qed.

(** The record stored on the path through the cropping block. *)
Lemma geometry_cropped (p lv sid c l2 poc mnr mbw mbh fmo cl cr ct cb : Z) :
  0 <= c <= 3 -> 0 <= fmo <= 1 ->
  0 <= cl < 2 ^ 32 -> 0 <= cr < 2 ^ 32 ->
  0 <= ct < 2 ^ 32 -> 0 <= cb < 2 ^ 32 ->
  (u32 (mbw + 1) >=? MAX_MACROBLOCKS)
  || (u32 (u32 (mbh + 1) * u32 (2 - fmo)) >=? MAX_MACROBLOCKS) = false ->
  (u32 (u32 (cl + cr) * shl32 1 (if (c =? 1) || (c =? 2) then 1 else 0)) >=?
   u32 (MACROBLOCK_SIZE * u32 (mbw + 1)))
  || (u32 (u32 (ct + cb) * shl32 (u32 (2 - fmo)) (if c =? 1 then 1 else 0)) >=?
      u32 (MACROBLOCK_SIZE * u32 (u32 (mbh + 1) * u32 (2 - fmo)))) = false ->
  sps_geometry
    (mk_sps p lv sid (u8 c) l2 poc mnr
       (u32 (mbw + 1)) (u32 (u32 (mbh + 1) * u32 (2 - fmo))) true
       (u32 (shl32 1 (if (c =? 1) || (c =? 2) then 1 else 0) * cl))
       (u32 (shl32 1 (if (c =? 1) || (c =? 2) then 1 else 0) * cr))
       (u32 (shl32 (u32 (2 - fmo)) (if c =? 1 then 1 else 0) * ct))
       (u32 (shl32 (u32 (2 - fmo)) (if c =? 1 then 1 else 0) * cb))
       (u32 (u32 (u32 (MACROBLOCK_SIZE * u32 (mbw + 1))
                  - u32 (shl32 1 (if (c =? 1) || (c =? 2) then 1 else 0)
                         * cl))
             - u32 (shl32 1 (if (c =? 1) || (c =? 2) then 1 else 0) * cr)))
       (u32 (u32 (u32 (MACROBLOCK_SIZE
                       * u32 (u32 (mbh + 1) * u32 (2 - fmo)))
                  - u32 (shl32 (u32 (2 - fmo)) (if c =? 1 then 1 else 0)
                         * ct))
             - u32 (shl32 (u32 (2 - fmo)) (if c =? 1 then 1 else 0) * cb)))
       (u32 (MACROBLOCK_SIZE * u32 (mbw + 1)))
       (u32 (MACROBLOCK_SIZE * u32 (u32 (mbh + 1) * u32 (2 - fmo)))))
    fmo cl cr ct cb.
Proof.
  intros Hc Hf Hcl Hcr Hct Hcb Hm Hv.
  apply macroblocks_checked in Hm. destruct Hm as [Hw Hh].
  apply orb_false_elim in Hv. destruct Hv as [Hx Hy].
  rewrite Z.geb_leb in Hx, Hy. apply Z.leb_gt in Hx, Hy.
  pose proof (u32_range (mbw + 1)).
  pose proof (u32_range (u32 (mbh + 1) * u32 (2 - fmo))).
  unfold sps_geometry. sps_fields. unfold crop_unit_x, crop_unit_y.
  rewrite (u8_small c Hc).
  repeat split; try lia; try discriminate; try reflexivity;
    try (rewrite pixels_no_wrap; lia); try assumption.
Qed.

(** The record stored on the path around the cropping block. *)
Lemma geometry_uncropped (p lv sid c l2 poc mnr mbw mbh fmo : Z) :
  0 <= c <= 3 -> 0 <= fmo <= 1 ->
  (u32 (mbw + 1) >=? MAX_MACROBLOCKS)
  || (u32 (u32 (mbh + 1) * u32 (2 - fmo)) >=? MAX_MACROBLOCKS) = false ->
  sps_geometry
    (mk_sps p lv sid (u8 c) l2 poc mnr
       (u32 (mbw + 1)) (u32 (u32 (mbh + 1) * u32 (2 - fmo))) false
       0 0 0 0
       (u32 (u32 (u32 (MACROBLOCK_SIZE * u32 (mbw + 1)) - 0) - 0))
       (u32 (u32 (u32 (MACROBLOCK_SIZE
                       * u32 (u32 (mbh + 1) * u32 (2 - fmo))) - 0) - 0))
       (u32 (MACROBLOCK_SIZE * u32 (mbw + 1)))
       (u32 (MACROBLOCK_SIZE * u32 (u32 (mbh + 1) * u32 (2 - fmo)))))
    fmo 0 0 0 0.
Proof.
  intros Hc Hf Hm.
  apply macroblocks_checked in Hm. destruct Hm as [Hw Hh].
  pose proof (u32_range (mbw + 1)).
  pose proof (u32_range (u32 (mbh + 1) * u32 (2 - fmo))).
  unfold sps_geometry. sps_fields.
  rewrite (u8_small c Hc).
  repeat split; try lia; try discriminate; try reflexivity;
    try (rewrite pixels_no_wrap; lia).
Qed.

Lemma chroma_checked (c : Z) :
  0 <= c < 2 ^ 32 -> (c >? 3) = false -> 0 <= c <= 3.
Proof.
  intros H Hc. rewrite Z.gtb_ltb in Hc. apply Z.ltb_ge in Hc. lia.
Qed.

(** An early return: the code and the fields of the record. *)
Ltac failed_leaf :=
  unfold body_post, sps_failed; sps_fields;
  split;
  [first [left; reflexivity | right; split; reflexivity]
  |repeat split; reflexivity].

(** The final [return 0]. *)
Ltac succeeded_leaf :=
  unfold body_post; sps_fields;
  repeat match goal with
         | H : negb (?b =? 0) = _ |- context [negb (?b =? 0)] => rewrite H
         end;
  split; [reflexivity|]; split; [reflexivity|]; split; [reflexivity|];
  do 5 eexists;
  first [eapply geometry_cropped | eapply geometry_uncropped];
  first [eassumption | eapply chroma_checked; eassumption | lia].

Lemma h264_sps_decode_body_post (buffer : list byte) (len : Z)
    (s : machine) :
  wp (h264_sps_decode_body buffer len) (body_post buffer) s.
Proof.
  unfold h264_sps_decode_body.
  repeat wp_step.
  all: lazymatch goal with
       | |- body_post _ (Exit _, _) => failed_leaf
       | |- body_post _ (Go _, _) => succeeded_leaf
       end.
Qed.

(** ** Outcomes of [h264_sps_decode] *)

(** The three ways a call ends. *)
Lemma h264_sps_decode_cases (sps : h264_sps) (buffer : list byte)
    (err : Z) (sp : h264_sps) :
  h264_sps_decode sps buffer = (err, sp) ->
  (Z.of_nat (length buffer) < 3 /\ err = EINVAL /\ sp = sps) \/
  (3 <= Z.of_nat (length buffer) /\ err = 0 /\
   profile_idc sp = byte_val (nth 0 buffer x00) /\
   level_idc sp = byte_val (nth 2 buffer x00) /\
   exists fmo cl cr ct cb, sps_geometry sp fmo cl cr ct cb) \/
  (3 <= Z.of_nat (length buffer) /\
   sps_failed (byte_val (nth 2 buffer x00)) err sp).
Proof.
  unfold h264_sps_decode, h264_sps_decode_run.
  destruct (Z.ltb_spec (Z.of_nat (length buffer)) 3) as [Hl|Hl].
  - intros H. injection H as <- <-. left. auto.
  - pose proof (h264_sps_decode_body_post buffer (Z.of_nat (length buffer))
                  (mk_machine sps gb_unused)) as Hp.
    unfold wp, exec in *.
    destruct (h264_sps_decode_body _ _ _) as [[e|e] s'];
      intros H; injection H as <- <-; unfold body_post in Hp.
    + right. left. destruct Hp as (-> & Hp). auto.
    + right. right. auto.
Qed.

(** From length 3 on, the record on entry has no influence. *)
Lemma h264_sps_decode_overwrites (sps sps' : h264_sps) (buffer : list byte) :
  3 <= Z.of_nat (length buffer) ->
  h264_sps_decode sps buffer = h264_sps_decode sps' buffer.
Proof.
  intros Hl. unfold h264_sps_decode, h264_sps_decode_run.
  destruct (Z.ltb_spec (Z.of_nat (length buffer)) 3); [lia|].
  unfold exec, h264_sps_decode_body.
  erewrite (bind_go _ _ (mk_machine sps gb_unused)) by reflexivity.
  erewrite (bind_go _ _ (mk_machine sps' gb_unused)) by reflexivity.
  reflexivity.
Qed.

(** ** Failure and the output record *)

(** C3 as stated fails: a record decoded earlier is lost to a failing
    call.  Three bytes are enough for [EBADMSG], and the record comes
    back zeroed with only [level_idc] set; one byte more and the fields
    decoded before the stream ran out are there as well. *)
Lemma failed_decode_modifies_record :
  h264_sps_decode sps_baseline_16x16 [x42; x00; x1f]
  = (EBADMSG, set_level_idc 31 sps_zero) /\
  snd (h264_sps_decode sps_baseline_16x16 [x42; x00; x1f])
  <> sps_baseline_16x16 /\
  h264_sps_decode sps_zero [x42; x00; x1e; xdd]
  = (EBADMSG,
     set_pic_order_cnt_type 2
       (set_log2_max_frame_num 4 (set_level_idc 30 sps_zero))).
Proof. vm_compute. repeat split; discriminate. Qed.

(** C3 (amended). A call that returns a nonzero code leaves the record
    untouched only when the code is [EINVAL].  With [EBADMSG] or
    [ENOTSUP] the record has been overwritten: it does not depend on
    its content on entry, [level_idc] is byte 2 of the buffer, and the
    fields stored on success only ([profile_idc],
    [seq_parameter_set_id], [chroma_format_idc], [width_cropped],
    [height_cropped]) are 0. *)
Theorem failed_decode_record (sps : h264_sps) (buffer : list byte)
    (err : Z) (sp : h264_sps) :
  h264_sps_decode sps buffer = (err, sp) -> err <> 0 ->
  (err = EINVAL /\ (length buffer < 3)%nat /\ sp = sps) \/
  ((err = EBADMSG \/ err = ENOTSUP) /\ (3 <= length buffer)%nat /\
   (forall sps', h264_sps_decode sps' buffer = (err, sp)) /\
   level_idc sp = byte_val (nth 2 buffer x00) /\
   profile_idc sp = 0 /\ seq_parameter_set_id sp = 0 /\
   chroma_format_idc sp = 0 /\
   width_cropped sp = 0 /\ height_cropped sp = 0).
Proof.
  intros H Herr.
  destruct (h264_sps_decode_cases sps buffer err sp H)
    as [(Hl & -> & ->)|[(Hl & -> & _)|(Hl & Hf)]].
  - left. repeat split; auto. lia.
  - contradiction.
  - right. destruct Hf as (Hcode & Hlv & Hp & Hs & Hc & Hw & Hh).
    assert (Hsame : forall sps', h264_sps_decode sps' buffer = (err, sp)).
    { intros sps'. rewrite <- H. apply h264_sps_decode_overwrites. lia. }
    assert (Hcode' : err = EBADMSG \/ err = ENOTSUP)
      by (destruct Hcode as [->|[-> _]]; auto).
    repeat split; auto; lia.
Qed.

Lemma failed_decode_record_witness :
  (h264_sps_decode sps_baseline_16x16 [x42; x00; x1f]
   = (EBADMSG, set_level_idc 31 sps_zero) /\ EBADMSG <> 0) /\
  (forall sps',
     h264_sps_decode sps' [x42; x00; x1f]
     = (EBADMSG, set_level_idc 31 sps_zero)) /\
  level_idc (set_level_idc 31 sps_zero) = 31 /\
  profile_idc (set_level_idc 31 sps_zero) = 0.
Proof.
  assert (H1 : h264_sps_decode sps_baseline_16x16 [x42; x00; x1f]
               = (EBADMSG, set_level_idc 31 sps_zero))
    by (vm_compute; reflexivity).
  assert (H2 : EBADMSG <> 0) by (vm_compute; discriminate).
  split; [split; assumption|].
  destruct (failed_decode_record sps_baseline_16x16 [x42; x00; x1f]
              EBADMSG (set_level_idc 31 sps_zero) H1 H2)
    as [(He & _)|(_ & _ & Hall & Hlv & Hp & _)].
  - vm_compute in He. discriminate He.
  - split; [exact Hall|]. split; [exact Hlv|exact Hp].
Defined.

(** ** Memory safety *)

(** C2. For every buffer the call returns one of the four codes, and
    its cursor stayed inside the buffer: from [getbit_init] on it is a
    cursor over the bytes from offset 3 with bit length [(len - 3) * 8]
    (as a [size_t]), its position never exceeds that length, and every
    bit position at which [get_bit] dereferenced the buffer is below the
    length, so that the byte read lies inside the buffer.  A call with
    fewer than 3 bytes returns [EINVAL] and performs no access. *)
Theorem sps_decode_reads_in_bounds (sps : h264_sps) (buffer : list byte) :
  let len := Z.of_nat (length buffer) in
  let err := fst (h264_sps_decode_run sps buffer) in
  let g := m_gb (snd (h264_sps_decode_run sps buffer)) in
  h264_sps_decode sps buffer
  = (err, m_sps (snd (h264_sps_decode_run sps buffer))) /\
  (err = 0 \/ err = EINVAL \/ err = EBADMSG \/ err = ENOTSUP) /\
  (len < 3 -> err = EINVAL /\ reads g = []) /\
  (3 <= len -> buf g = skipn 3 buffer /\ end_ g = u64 ((len - 3) * 8)) /\
  0 <= pos g <= end_ g /\
  end_ g <= 8 * Z.of_nat (length (buf g)) /\
  Forall (fun p => 0 <= p < end_ g /\
                   (Z.to_nat (Z.shiftr p 3) < length (buf g))%nat)
         (reads g) /\
  reads g = positions_below (pos g).
Proof.
  intros len err g.
  assert (Hd : h264_sps_decode sps buffer
               = (err, m_sps (snd (h264_sps_decode_run sps buffer)))).
  { unfold h264_sps_decode, err.
    destruct (h264_sps_decode_run sps buffer) as [e s']. reflexivity. }
  split; [exact Hd|]. split.
  { destruct (h264_sps_decode_cases sps buffer _ _ Hd)
      as [(_ & -> & _)|[(_ & -> & _)|(_ & [->|[-> _]] & _)]]; auto. }
  assert (Hok : gb_ok (buf g) (end_ g) g /\
                (len < 3 -> err = EINVAL /\ reads g = []) /\
                (3 <= len ->
                 buf g = skipn 3 buffer /\ end_ g = u64 ((len - 3) * 8))).
  { unfold g, err, h264_sps_decode_run. fold len.
    destruct (Z.ltb_spec len 3) as [Hl|Hl]; cbn [fst snd m_gb].
    - unfold gb_ok. cbn. repeat split; auto; lia.
    - pose proof (h264_sps_decode_body_gb_ok buffer
                    (mk_machine sps gb_unused) Hl) as Hb.
      fold len in Hb. unfold exec.
      destruct (h264_sps_decode_body buffer len _) as [r s'].
      cbn [fst snd] in *.
      destruct Hb as (Hb1 & Hb2 & Hb3 & Hb4 & Hb5 & Hb6).
      split; [|split; [lia|auto]].
      rewrite Hb1, Hb2. repeat split; auto; lia. }
  destruct Hok as ((_ & _ & Hpos & Hlen & Hreads & Hlog) & Hshort & Hlong).
  split; [exact Hshort|]. split; [exact Hlong|].
  split; [exact Hpos|]. split; [exact Hlen|].
  split; [|exact Hlog].
  eapply Forall_impl; [|exact Hreads]. cbv beta. intros p Hp.
  split; [exact Hp|].
  rewrite Z.shiftr_div_pow2 by lia. change (2 ^ 3) with 8.
  apply Nat2Z.inj_lt. rewrite Z2Nat.id by (apply Z.div_pos; lia).
  apply Z.div_lt_upper_bound; lia.
Qed.

(** ** Picture geometry *)

(** C6 (the code at the failing input). A height field of
    [2^31 - 1] (31 zeros, a one, 31 zeros) with [frame_mbs_only_flag]
    0: the row count [(2^31 - 1 + 1) * 2] wraps to 0 before the
    [MAX_MACROBLOCKS] check, and the call returns 0 with
    [pic_height_in_map_units = 0]. *)
Theorem sps_decode_zero_height :
  fst (get_ue_golomb (mk_getbit (skipn 3 zero_height_input) 8 80 []) 0)
  = (0, 2 ^ 31 - 1) /\
  fst (h264_sps_decode sps_zero zero_height_input) = 0 /\
  pic_height_in_map_units (snd (h264_sps_decode sps_zero zero_height_input))
  = 0 /\
  height (snd (h264_sps_decode sps_zero zero_height_input)) = 0 /\
  pic_height_in_map_units (snd (h264_sps_decode sps_zero zero_height_input))
  < 1.
Proof. vm_compute. repeat split; reflexivity. Qed.

Lemma crop_sum (sx a b : Z) :
  u32 (u32 (sx * a) + u32 (sx * b)) = u32 (u32 (a + b) * sx).
Proof.
  unfold u32. rewrite <- Zplus_mod, Zmult_mod_idemp_l.
  f_equal. ring.
Qed.

Lemma crop_sub (w x y : Z) :
  0 <= w < 2 ^ 32 -> u32 (x + y) < w ->
  u32 (u32 (w - x) - y) = w - u32 (x + y).
Proof.
  unfold u32. intros Hw Hxy.
  pose proof (Z.mod_pos_bound (x + y) (2 ^ 32) ltac:(lia)).
  rewrite Zminus_mod_idemp_l.
  replace (w - x - y) with (w - (x + y)) by ring.
  rewrite <- Zminus_mod_idemp_r. apply Z.mod_small. lia.
Qed.

(** The cropped size of a record with the geometry of a success. *)
Lemma geometry_cropped_size (sp : h264_sps) (fmo cl cr ct cb : Z) :
  sps_geometry sp fmo cl cr ct cb ->
  (frame_cropping_flg sp = false ->
   width_cropped sp = width sp /\ height_cropped sp = height sp) /\
  (frame_cropping_flg sp = true ->
   u32 (frame_crop_left_offset sp + frame_crop_right_offset sp)
   < width sp /\
   u32 (frame_crop_top_offset sp + frame_crop_bottom_offset sp)
   < height sp /\
   width_cropped sp
   = width sp
     - u32 (frame_crop_left_offset sp + frame_crop_right_offset sp) /\
   height_cropped sp
   = height sp
     - u32 (frame_crop_top_offset sp + frame_crop_bottom_offset sp)).
Proof.
  intros (Hf & _ & Hc & Hpw & Hph & Hw & Hh & Hoff & Hon & Hwc & Hhc).
  unfold MACROBLOCK_SIZE, MAX_MACROBLOCKS in *.
  assert (Hw32 : 0 <= width sp < 2 ^ 32) by lia.
  assert (Hh32 : 0 <= height sp < 2 ^ 32) by lia.
  split.
  - intros Hflg. destruct (Hoff Hflg) as (Hl & Hr & Ht & Hb).
    rewrite Hwc, Hhc, Hl, Hr, Ht, Hb.
    rewrite !Z.sub_0_r. unfold u32. rewrite !Zmod_mod, !Z.mod_small; lia.
  - intros Hflg. specialize (Hon Hflg). cbv zeta in Hon.
    destruct Hon as (Hx & Hy & Hl & Hr & Ht & Hb).
    assert (Hxs : u32 (frame_crop_left_offset sp
                       + frame_crop_right_offset sp) < width sp)
      by (rewrite Hl, Hr, crop_sum; exact Hx).
    assert (Hys : u32 (frame_crop_top_offset sp
                       + frame_crop_bottom_offset sp) < height sp)
      by (rewrite Ht, Hb, crop_sum; exact Hy).
    repeat split; auto.
    + rewrite Hwc. apply crop_sub; assumption.
    + rewrite Hhc. apply crop_sub; assumption.
Qed.

(** C7. A record returned with code 0 has
    [width_cropped <= width] and [height_cropped <= height].  Without
    cropping the four offsets are 0 and the cropped size is the frame
    size; with cropping the stored offsets passed the range check
    (their 32-bit sums are below the frame size) and the cropped size
    is the frame size minus those sums. *)
Theorem cropped_size_within_frame (sps : h264_sps) (buffer : list byte)
    (sp : h264_sps) :
  h264_sps_decode sps buffer = (0, sp) ->
  width_cropped sp <= width sp /\ height_cropped sp <= height sp /\
  (frame_cropping_flg sp = false ->
   frame_crop_left_offset sp = 0 /\ frame_crop_right_offset sp = 0 /\
   frame_crop_top_offset sp = 0 /\ frame_crop_bottom_offset sp = 0 /\
   width_cropped sp = width sp /\ height_cropped sp = height sp) /\
  (frame_cropping_flg sp = true ->
   u32 (frame_crop_left_offset sp + frame_crop_right_offset sp)
   < width sp /\
   u32 (frame_crop_top_offset sp + frame_crop_bottom_offset sp)
   < height sp /\
   width_cropped sp
   = width sp
     - u32 (frame_crop_left_offset sp + frame_crop_right_offset sp) /\
   height_cropped sp
   = height sp
     - u32 (frame_crop_top_offset sp + frame_crop_bottom_offset sp)).
Proof.
  intros H.
  destruct (h264_sps_decode_cases sps buffer 0 sp H)
    as [(_ & He & _)|[(_ & _ & _ & _ & Hg)|(_ & [He|[He _]] & _)]];
    try discriminate He.
  destruct Hg as (fmo & cl & cr & ct & cb & Hg).
  destruct (geometry_cropped_size sp fmo cl cr ct cb Hg) as [Hoff Hon].
  destruct Hg as (_ & _ & _ & _ & _ & _ & _ & Hzero & _).
  assert (Hle : width_cropped sp <= width sp /\
                height_cropped sp <= height sp).
  { destruct (frame_cropping_flg sp) eqn:Hflg.
    - destruct (Hon eq_refl) as (Hx & Hy & -> & ->).
      pose proof (u32_range (frame_crop_left_offset sp
                             + frame_crop_right_offset sp)).
      pose proof (u32_range (frame_crop_top_offset sp
                             + frame_crop_bottom_offset sp)).
      lia.
    - destruct (Hoff eq_refl) as [-> ->]. lia. }
  destruct Hle as [Hlw Hlh].
  split; [exact Hlw|]. split; [exact Hlh|]. split.
  - intros Hflg. destruct (Hzero Hflg) as (Hl & Hr & Ht & Hb).
    destruct (Hoff Hflg) as [Hw Hh]. repeat split; assumption.
  - exact Hon.
Qed.

Lemma cropped_size_within_frame_witness :
  h264_sps_decode sps_zero crop_below_input
  = (0, snd (h264_sps_decode sps_zero crop_below_input)) /\
  width_cropped (snd (h264_sps_decode sps_zero crop_below_input))
  <= width (snd (h264_sps_decode sps_zero crop_below_input)) /\
  height_cropped (snd (h264_sps_decode sps_zero crop_below_input))
  <= height (snd (h264_sps_decode sps_zero crop_below_input)).
Proof.
  split; [vm_compute; reflexivity|].
  pose proof (cropped_size_within_frame sps_zero crop_below_input
                (snd (h264_sps_decode sps_zero crop_below_input))) as H.
  destruct H as (Hw & Hh & _); [vm_compute; reflexivity|].
  split; assumption.
Defined.

(** ** The crop check *)

(** C8 (the code at the failing input). The check is there: with crop
    values 8 and 0 and [sx = 2] the product equals the width 16, and
    the stream is rejected with [EBADMSG].  But both products are
    formed in 32-bit unsigned arithmetic before they are compared.  In
    [crop_wrap_input] (16 x 32, [chroma_format_idc] 1 and
    [frame_mbs_only_flag] 0, so [sx = 2] and [sy = 4]) the crop values
    are [2^30], [2^30], [2^29] and [2^29]:
    [(crop_left + crop_right) * sx] and [(crop_top + crop_bottom) * sy]
    are both [2^32], far beyond the frame, yet they wrap to 0 and pass
    the check, and the call returns 0 with four crop offsets of [2^31]
    pixels on a frame of 16 x 32. *)
Theorem crop_check_wraps :
  (fst (get_ue_golomb (crop_cursor crop_equal_input) 0) = (0, 8) /\
   fst (h264_sps_decode sps_zero crop_equal_input) = EBADMSG) /\
  fst (get_bit (mk_getbit (skipn 3 crop_wrap_input) 9 256 [])) = 0 /\
  ue_reads 4 crop_wrap_cursor
  = [(0, 2 ^ 30); (0, 2 ^ 30); (0, 2 ^ 29); (0, 2 ^ 29)] /\
  crop_unit_x (chroma_format_idc crop_wrap_record) = 2 /\
  crop_unit_y (chroma_format_idc crop_wrap_record) 0 = 4 /\
  h264_sps_decode sps_zero crop_wrap_input = (0, crop_wrap_record) /\
  width crop_wrap_record < (2 ^ 30 + 2 ^ 30) * 2 /\
  height crop_wrap_record < (2 ^ 29 + 2 ^ 29) * 4 /\
  width crop_wrap_record < frame_crop_left_offset crop_wrap_record /\
  height crop_wrap_record < frame_crop_top_offset crop_wrap_record.
Proof. vm_compute. repeat split; reflexivity. Qed.

(** * Further properties of the code *)

(** ** Single-bit reads *)

(** X1. While bits remain, [get_bit] returns bit [7 - pos mod 8] of byte
    [pos / 8] (most significant bit first), advances the position by
    exactly one and leaves the buffer and the bit length alone. *)
Theorem get_bit_reads_msb_first (g : getbit) :
  1 <= getbit_get_left g ->
  fst (get_bit g)
  = Z.b2z (Z.testbit (byte_val (nth (Z.to_nat (pos g / 8)) (buf g) x00))
                     (7 - pos g mod 8)) /\
  pos (snd (get_bit g)) = pos g + 1 /\
  buf (snd (get_bit g)) = buf g /\
  end_ (snd (get_bit g)) = end_ g /\
  getbit_get_left (snd (get_bit g)) = getbit_get_left g - 1.
Proof.
  intros H. rewrite (get_bit_peek g H). cbn [fst snd].
  repeat split. apply getbit_get_left_step. exact H.
Qed.

Lemma get_bit_reads_msb_first_witness :
  1 <= getbit_get_left (mk_getbit [xa5] 2 8 []) /\
  fst (get_bit (mk_getbit [xa5] 2 8 [])) = 1 /\
  pos (snd (get_bit (mk_getbit [xa5] 2 8 []))) = 3.
Proof.
  assert (H : 1 <= getbit_get_left (mk_getbit [xa5] 2 8 []))
    by (vm_compute; discriminate).
  split; [exact H|].
  destruct (get_bit_reads_msb_first (mk_getbit [xa5] 2 8 []) H)
    as (Hb & Hp & _).
  split; [rewrite Hb; reflexivity|rewrite Hp; reflexivity].
Defined.

(** ** The Golomb reader on the whole 32-bit range and on bad input *)

(** X2. The round trip holds up to the largest value whose code has a
    zero run shorter than 32: for every [v] with [0 <= v < 2^32 - 1],
    decoding the code of [v] yields [v] and consumes exactly its
    bits. *)
Theorem ue_code_roundtrip_32bit (v : Z) (g : getbit) (valp : Z) :
  0 <= v < 2 ^ 32 - 1 ->
  Z.of_nat (length (ue_encode v)) <= getbit_get_left g ->
  peek_bits (length (ue_encode v)) g = ue_encode v ->
  get_ue_golomb g valp = (0, v, gb_skip (length (ue_encode v)) g).
Proof.
  intros Hv Hl Hp.
  destruct (ue_encode_shape v ltac:(lia)) as [Hs Hval].
  rewrite ue_encode_length in * by lia.
  set (z := Z.to_nat (Z.log2 (v + 1))) in *.
  assert (Hz : (z < 32)%nat).
  { assert (Z.log2 (v + 1) < 32) by (apply Z.log2_lt_pow2; lia).
    pose proof (Z.log2_nonneg (v + 1)). unfold z. lia. }
  rewrite Hs in Hp.
  rewrite (get_ue_golomb_value z (bits_msb z (v + 1)) g valp Hz
             (bits_msb_length _ _) Hl Hp).
  f_equal. f_equal.
  pose proof (bits_value_bound (bits_msb z (v + 1))) as Hb.
  rewrite bits_msb_length in Hb.
  rewrite lor_pow2_low by lia. lia.
Qed.

Lemma ue_code_roundtrip_32bit_witness :
  (0 <= 2 ^ 32 - 2 < 2 ^ 32 - 1 /\
   Z.of_nat (length (ue_encode (2 ^ 32 - 2)))
   <= getbit_get_left
        (getbit_init [x00; x00; x00; x01; xff; xff; xff; xfe] 63) /\
   peek_bits (length (ue_encode (2 ^ 32 - 2)))
     (getbit_init [x00; x00; x00; x01; xff; xff; xff; xfe] 63)
   = ue_encode (2 ^ 32 - 2)) /\
  fst (get_ue_golomb
         (getbit_init [x00; x00; x00; x01; xff; xff; xff; xfe] 63) 0)
  = (0, 2 ^ 32 - 2).
Proof.
  assert (H1 : 0 <= 2 ^ 32 - 2 < 2 ^ 32 - 1) by lia.
  assert (H2 : Z.of_nat (length (ue_encode (2 ^ 32 - 2)))
               <= getbit_get_left
                    (getbit_init
                       [x00; x00; x00; x01; xff; xff; xff; xfe] 63))
    by (vm_compute; discriminate).
  assert (H3 : peek_bits (length (ue_encode (2 ^ 32 - 2)))
                 (getbit_init [x00; x00; x00; x01; xff; xff; xff; xfe] 63)
               = ue_encode (2 ^ 32 - 2))
    by (vm_compute; reflexivity).
  split; [split; [exact H1|split; [exact H2|exact H3]]|].
  rewrite (ue_code_roundtrip_32bit _ _ 0 H1 H2 H3). reflexivity.
Defined.

Lemma ue_zeros_all_zero (n : nat) : forall g z,
  getbit_get_left g = Z.of_nat n ->
  peek_bits n g = repeat false n ->
  fst (fst (ue_zeros g z)) = EBADMSG /\ snd (ue_zeros g z) = gb_skip n g.
Proof.
  induction n as [|n IH]; intros g z Hl Hp; rewrite ue_zeros_eq.
  - destruct (Z.ltb_spec (getbit_get_left g) 1); [|lia]. auto.
  - destruct (Z.ltb_spec (getbit_get_left g) 1); [lia|].
    rewrite get_bit_peek by lia.
    cbn [peek_bits repeat] in Hp. injection Hp as Hb Hp.
    rewrite Hb. cbn [fst snd Z.b2z Z.eqb gb_skip].
    apply IH; [|exact Hp]. rewrite getbit_get_left_step; lia.
Qed.

(** X3. A cursor whose remaining bits are all zero, the empty cursor
    included, makes [get_ue_golomb] fail with [EBADMSG]: the cell is
    left as it was and every remaining bit has been consumed. *)
Theorem ue_golomb_all_zero_fails (n : nat) (g : getbit) (valp : Z) :
  getbit_get_left g = Z.of_nat n ->
  peek_bits n g = repeat false n ->
  get_ue_golomb g valp = (EBADMSG, valp, gb_skip n g) /\
  getbit_get_left (gb_skip n g) = 0.
Proof.
  intros Hl Hp. split.
  - unfold get_ue_golomb.
    destruct (ue_zeros_all_zero n g 0 Hl Hp) as [He Hg].
    destruct (ue_zeros g 0) as [[e z] g1]. cbn [fst snd] in He, Hg.
    subst e g1. reflexivity.
  - rewrite getbit_get_left_skip; lia.
Qed.

Lemma ue_golomb_all_zero_fails_witness :
  (getbit_get_left (getbit_init [x00; x00] 13) = Z.of_nat 13 /\
   peek_bits 13 (getbit_init [x00; x00] 13) = repeat false 13) /\
  get_ue_golomb (getbit_init [x00; x00] 13) 5
  = (EBADMSG, 5, gb_skip 13 (getbit_init [x00; x00] 13)).
Proof.
  assert (H1 : getbit_get_left (getbit_init [x00; x00] 13) = Z.of_nat 13)
    by reflexivity.
  assert (H2 : peek_bits 13 (getbit_init [x00; x00] 13) = repeat false 13)
    by (vm_compute; reflexivity).
  split; [split; assumption|].
  exact (proj1 (ue_golomb_all_zero_fails 13 _ 5 H1 H2)).
Defined.

Lemma ue_info_truncated (k : nat) : forall n g info,
  getbit_get_left g = Z.of_nat k -> (k < n)%nat ->
  fst (fst (ue_info n g info)) = EBADMSG /\
  snd (ue_info n g info) = gb_skip k g.
Proof.
  induction k as [|k IH]; intros n g info Hl Hk;
    (destruct n as [|i]; [lia|]); cbn [ue_info].
  - destruct (Z.ltb_spec (getbit_get_left g) 1); [|lia]. auto.
  - destruct (Z.ltb_spec (getbit_get_left g) 1); [lia|].
    rewrite get_bit_peek by lia. cbn [gb_skip].
    apply IH; [|lia]. rewrite getbit_get_left_step; lia.
Qed.

(** X4. A code cut short in its suffix fails with [EBADMSG]: after
    [z] zeros and the one, with fewer than [z] bits left, the cell is
    left as it was and the cursor ends exhausted. *)
Theorem ue_golomb_truncated_suffix_fails (z k : nat) (g : getbit)
    (valp : Z) :
  Z.of_nat z < 2 ^ 31 -> (k < z)%nat ->
  getbit_get_left g = Z.of_nat (S z + k) ->
  peek_bits (S z) g = repeat false z ++ [true] ->
  get_ue_golomb g valp = (EBADMSG, valp, gb_skip (S z + k) g) /\
  getbit_get_left (gb_skip (S z + k) g) = 0.
Proof.
  intros Hz Hk Hl Hp. split.
  2:{ rewrite getbit_get_left_skip; lia. }
  unfold get_ue_golomb.
  rewrite (ue_zeros_run z g 0 Hp) by lia.
  cbn [negb Z.eqb]. rewrite Z.add_0_l.
  assert (Hn : Z.to_nat (int_of_u32 (u32 (Z.of_nat z - 1)) + 1) = z).
  { unfold int_of_u32, u32. rewrite Z.mod_small by lia.
    destruct (Z.ltb_spec (Z.of_nat z - 1) (2 ^ 31)); lia. }
  rewrite Hn.
  destruct (ue_info_truncated k z (gb_skip (S z) g)
              (shl32 1 (Z.of_nat z))) as [He Hg].
  { rewrite getbit_get_left_skip; lia. }
  { exact Hk. }
  destruct (ue_info z (gb_skip (S z) g) (shl32 1 (Z.of_nat z)))
    as [[e i] g2]. cbn [fst snd] in He, Hg. subst e g2.
  cbn [negb Z.eqb EBADMSG]. rewrite <- gb_skip_add. reflexivity.
Qed.

Lemma ue_golomb_truncated_suffix_fails_witness :
  (Z.of_nat 2 < 2 ^ 31 /\ (1 < 2)%nat /\
   getbit_get_left (getbit_init [x20] 4) = Z.of_nat (3 + 1) /\
   peek_bits 3 (getbit_init [x20] 4) = repeat false 2 ++ [true]) /\
  get_ue_golomb (getbit_init [x20] 4) 9
  = (EBADMSG, 9, gb_skip (3 + 1) (getbit_init [x20] 4)).
Proof.
  assert (H1 : Z.of_nat 2 < 2 ^ 31) by (vm_compute; reflexivity).
  assert (H2 : (1 < 2)%nat) by lia.
  assert (H3 : getbit_get_left (getbit_init [x20] 4) = Z.of_nat (3 + 1))
    by reflexivity.
  assert (H4 : peek_bits 3 (getbit_init [x20] 4) = repeat false 2 ++ [true])
    by (vm_compute; reflexivity).
  split; [repeat split; assumption|].
  exact (proj1 (ue_golomb_truncated_suffix_fails 2 1 _ 9 H1 H2 H3 H4)).
Defined.

(** ** The cursor only moves forward *)

Lemma advanced_refl (g : getbit) : advanced g g.
Proof. unfold advanced. repeat split; auto; lia. Qed.

Lemma advanced_get_bit (g0 g : getbit) :
  advanced g0 g -> advanced g0 (snd (get_bit g)).
Proof.
  unfold advanced, get_bit, getbit_get_left.
  intros (Hb & He & Hp & Hl & Hle).
  destruct (Z.geb_spec (pos g) (end_ g)); cbn [snd]; [auto|].
  unfold gb_step; cbn [buf pos end_ reads].
  repeat split; auto; try lia.
  destruct (end_ g >? pos g + 1) eqn:E1; destruct (end_ g >? pos g) eqn:E2;
    destruct (end_ g0 >? pos g0) eqn:E3; lia.
Qed.

Lemma advanced_trans (g0 g1 g2 : getbit) :
  advanced g0 g1 -> advanced g1 g2 -> advanced g0 g2.
Proof.
  unfold advanced.
  intros (Hb & He & Hp & Hl & Hle) (Hb' & He' & Hp' & Hl' & Hle').
  repeat split; try congruence; lia.
Qed.

(** X5. A call of [get_ue_golomb] keeps the buffer and the bit length,
    never moves the position back nor past the bit length, and never
    increases the bits left; which cell it is given changes neither the
    return code nor the cursor, so that a discarded value ([NULL])
    consumes the same bits. *)
Theorem ue_golomb_only_advances (g : getbit) (valp : Z) :
  advanced g (snd (get_ue_golomb g valp)) /\
  forall valp',
    fst (fst (get_ue_golomb g valp')) = fst (fst (get_ue_golomb g valp)) /\
    snd (get_ue_golomb g valp') = snd (get_ue_golomb g valp).
Proof.
  split.
  - apply (get_ue_golomb_keeps (advanced g) (advanced_get_bit g)).
    apply advanced_refl.
  - intros valp'. unfold get_ue_golomb.
    destruct (ue_zeros g 0) as [[e z] g1].
    destruct (negb (e =? 0)); [split; reflexivity|].
    destruct (ue_info _ g1 (shl32 1 z)) as [[e' i] g2].
    destruct (negb (e' =? 0)); split; reflexivity.
Qed.

(** ** Scaling lists *)

Lemma array_set_length {A} (a : list A) : forall j v,
  length (array_set a j v) = length a.
Proof.
  induction a as [|x a IH]; intros [|j] v; simpl; auto.
Qed.

Lemma array_set_nth_same {A} (a : list A) : forall j v d,
  (j < length a)%nat -> nth j (array_set a j v) d = v.
Proof.
  induction a as [|x a IH]; intros [|j] v d H; simpl in *; try lia; auto.
  apply IH. lia.
Qed.

Lemma array_set_nth_other {A} (a : list A) : forall j i v d,
  i <> j -> nth i (array_set a j v) d = nth i a d.
Proof.
  induction a as [|x a IH]; intros [|j] [|i] v d H; simpl; try lia; auto.
Qed.

Lemma nextscale_range (lastscale delta : Z) :
  0 <= u32 (u32 (lastscale + delta) + 256) mod 256 <= 255.
Proof.
  pose proof (Z.mod_pos_bound (u32 (u32 (lastscale + delta) + 256)) 256).
  lia.
Qed.

(** The loop of [scaling_list] from index [j] on, with a scale in
    1..255 and a next scale in 0..255. *)
Lemma scaling_list_loop_values (n : nat) :
  forall j lastscale nextscale sl udsm s,
    1 <= lastscale <= 255 -> 0 <= nextscale <= 255 -> 0 <= j ->
    (Z.to_nat j + n <= length sl)%nat ->
    wp (scaling_list_loop n j lastscale nextscale sl udsm)
       (fun r =>
          match r with
          | (Go (e, sl', _), s') =>
              m_sps s' = m_sps s /\ (e = 0 \/ e = EBADMSG) /\
              length sl' = length sl /\
              (e = 0 ->
               (forall i, (Z.to_nat j <= i < Z.to_nat j + n)%nat ->
                          1 <= nth i sl' 0 <= 255) /\
               (forall i, (i < Z.to_nat j \/ Z.to_nat j + n <= i)%nat ->
                          nth i sl' 0 = nth i sl 0))
          | (Exit _, _) => False
          end) s.
Proof.
  induction n as [|n IH];
    intros j lastscale nextscale sl udsm s Hl Hn Hj Hlen;
    cbn [scaling_list_loop].
  - apply wp_ret. split; [reflexivity|]. split; [auto|].
    split; [reflexivity|]. intros _. split; intros i Hi; [lia|reflexivity].
  - assert (Hstep :
      forall nx u g, 0 <= nx <= 255 ->
        wp (let v := if nx =? 0 then lastscale else nx in
            scaling_list_loop n (j + 1) v nx
              (array_set sl (Z.to_nat j) v) u)
           (fun r =>
              match r with
              | (Go (e, sl', _), s') =>
                  m_sps s' = m_sps s /\ (e = 0 \/ e = EBADMSG) /\
                  length sl' = length sl /\
                  (e = 0 ->
                   (forall i, (Z.to_nat j <= i < Z.to_nat j + S n)%nat ->
                              1 <= nth i sl' 0 <= 255) /\
                   (forall i, (i < Z.to_nat j \/ Z.to_nat j + S n <= i)%nat ->
                              nth i sl' 0 = nth i sl 0))
              | (Exit _, _) => False
              end) (mk_machine (m_sps s) g)).
    { intros nx u g Hnx. cbv zeta.
      set (v := if nx =? 0 then lastscale else nx).
      assert (Hv : 1 <= v <= 255).
      { unfold v. destruct (Z.eqb_spec nx 0); lia. }
      assert (Hj1 : Z.to_nat (j + 1) = S (Z.to_nat j)) by lia.
      pose proof (IH (j + 1) v nx (array_set sl (Z.to_nat j) v) u
                    (mk_machine (m_sps s) g) Hv Hnx ltac:(lia)) as Hrec.
      rewrite array_set_length, Hj1 in Hrec.
      specialize (Hrec ltac:(lia)). unfold wp in *.
      destruct (scaling_list_loop n (j + 1) v nx _ u _)
        as [[[[e sl'] u']|e] s']; [|contradiction].
      cbn [m_sps] in Hrec.
      destruct Hrec as (Hs & He & Hlen' & Hval).
      split; [exact Hs|]. split; [exact He|]. split; [exact Hlen'|].
      intros H0. destruct (Hval H0) as [Hin Hout]. split.
      - intros i Hi. destruct (Nat.eq_dec i (Z.to_nat j)) as [->|Hne].
        + rewrite Hout by lia.
          rewrite array_set_nth_same by lia. lia.
        + apply Hin. lia.
      - intros i Hi. rewrite Hout by lia.
        apply array_set_nth_other. lia. }
    apply wp_bind. apply wp_if; intros Hc.
    + apply wp_bind, wp_ue.
      * intros g. apply wp_ret, wp_ret. cbn [negb Z.eqb EBADMSG m_sps].
        split; [reflexivity|].
        split; [auto|]. split; [reflexivity|]. intros H. discriminate H.
      * intros d g Hd. cbn [negb Z.eqb]. apply wp_ret.
        cbn [negb Z.eqb]. apply Hstep. apply nextscale_range.
    + apply wp_ret. cbn [negb Z.eqb].
      destruct s as [sp g]. apply Hstep. exact Hn.
Qed.

Lemma scaling_list_loop_advances (n : nat) (g0 : getbit) :
  forall j lastscale nextscale sl udsm,
    keeps (advanced g0) (scaling_list_loop n j lastscale nextscale sl udsm).
Proof.
  intros. apply keeps_scaling_list_loop. apply advanced_get_bit.
Qed.

(** A call of [scaling_list] on an array with room for [n] entries. *)
Lemma scaling_list_spec (sl : list Z) (n : nat) (udsm : bool)
    (s : machine) :
  (n <= length sl)%nat ->
  scaling_list_post sl n s (scaling_list sl n udsm s).
Proof.
  intros Hn. unfold scaling_list.
  pose proof (scaling_list_loop_values n 0 8 8 sl udsm s
                ltac:(lia) ltac:(lia) ltac:(lia) ltac:(simpl; lia)) as Hv.
  pose proof (scaling_list_loop_advances n (m_gb s) 0 8 8 sl udsm s
                (advanced_refl _)) as Ha.
  unfold wp, scaling_list_post in *.
  destruct (scaling_list_loop n 0 8 8 sl udsm s)
    as [[[[e sl'] u']|e] s']; [|contradiction].
  cbn [snd] in Ha. destruct Hv as (Hs & He & Hlen & Hval).
  split; [exact Hs|]. split; [exact Ha|]. split; [exact He|].
  split; [exact Hlen|]. intros H0. destruct (Hval H0) as [Hin Hout].
  split; intros i Hi; [apply Hin|apply Hout]; simpl; lia.
Qed.

(** X6. [scaling_list] on an array with room for the [n] entries asked
    for never leaves the decoder by itself and never touches the output
    record; it returns 0 or [EBADMSG] with the cursor advanced, and on
    success every one of the [n] entries written lies in 1..255 (no
    scale is 0) while the entries behind them are unchanged. *)
Theorem scaling_list_writes_nonzero_scales (sl : list Z) (n : nat)
    (udsm : bool) (s : machine) :
  (n <= length sl)%nat ->
  exists e sl' u' s',
    scaling_list sl n udsm s = (Go (e, sl', u'), s') /\
    m_sps s' = m_sps s /\ advanced (m_gb s) (m_gb s') /\
    (e = 0 \/ e = EBADMSG) /\ length sl' = length sl /\
    (e = 0 ->
     (forall i, (i < n)%nat -> 1 <= nth i sl' 0 <= 255) /\
     (forall i, (n <= i)%nat -> nth i sl' 0 = nth i sl 0)).
Proof.
  intros Hn. pose proof (scaling_list_spec sl n udsm s Hn) as H.
  unfold scaling_list_post in H.
  destruct (scaling_list sl n udsm s) as [[[[e sl'] u']|e] s'];
    [|contradiction].
  exists e, sl', u', s'. split; [reflexivity|exact H].
Qed.

Lemma scaling_list_writes_nonzero_scales_witness :
  (16 <= length (repeat 0 16))%nat /\
  exists e sl' u' s',
    scaling_list (repeat 0 16) 16 false
      (mk_machine sps_zero (getbit_init [xff; xff] 16))
    = (Go (e, sl', u'), s') /\
    (e = 0 \/ e = EBADMSG) /\ length sl' = 16%nat.
Proof.
  assert (H : (16 <= length (repeat 0 16))%nat) by (simpl; lia).
  split; [exact H|].
  destruct (scaling_list_writes_nonzero_scales (repeat 0 16) 16 false
              (mk_machine sps_zero (getbit_init [xff; xff] 16)) H)
    as (e & sl' & u' & s' & Heq & _ & _ & He & Hlen & _).
  exists e, sl', u', s'. split; [exact Heq|]. split; [exact He|exact Hlen].
Defined.

Lemma array_fill_length (n : nat) : forall a j v,
  length (array_fill a j n v) = length a.
Proof.
  induction n as [|n IH]; intros a j v; cbn [array_fill]; [reflexivity|].
  rewrite IH. apply array_set_length.
Qed.

Lemma array_fill_nth_out (n : nat) : forall a j v i,
  (i < j \/ j + n <= i)%nat -> nth i (array_fill a j n v) 0 = nth i a 0.
Proof.
  induction n as [|n IH]; intros a j v i Hi; cbn [array_fill];
    [reflexivity|].
  rewrite IH by lia. apply array_set_nth_other. lia.
Qed.

Lemma array_fill_nth_in (n : nat) : forall a j v i,
  (j + n <= length a)%nat -> (j <= i < j + n)%nat ->
  nth i (array_fill a j n v) 0 = v.
Proof.
  induction n as [|n IH]; intros a j v i Hlen Hi; cbn [array_fill]; [lia|].
  destruct (Nat.eq_dec i j) as [->|Hne].
  - rewrite array_fill_nth_out by lia. apply array_set_nth_same. lia.
  - apply IH; [rewrite array_set_length|]; lia.
Qed.

(** With a next scale of 0 the loop reads nothing and repeats the last
    scale. *)
Lemma scaling_list_loop_idle (n : nat) : forall j lastscale sl udsm s,
  0 <= j ->
  scaling_list_loop n j lastscale 0 sl udsm s
  = (Go (0, array_fill sl (Z.to_nat j) n lastscale, udsm), s).
Proof.
  induction n as [|n IH]; intros j lastscale sl udsm s Hj;
    cbn [scaling_list_loop array_fill]; [reflexivity|].
  cbn [negb Z.eqb]. unfold bind at 1. unfold ret at 1.
  cbn [negb Z.eqb]. rewrite IH by lia.
  replace (Z.to_nat (j + 1)) with (S (Z.to_nat j)) by lia. reflexivity.
Qed.

(** X7. When the first delta read by [scaling_list] brings the scale
    from 8 to 0 (a delta of 248 modulo 256), the default matrix is
    selected: the flag is set, all the entries asked for are filled
    with 8, and nothing but that one Golomb value is read. *)
Theorem scaling_list_first_zero_selects_default (sl : list Z) (n : nat)
    (udsm : bool) (s : machine) (delta : Z) (g1 : getbit) :
  get_ue_golomb (m_gb s) 0 = (0, delta, g1) ->
  u32 (u32 (8 + delta) + 256) mod 256 = 0 ->
  scaling_list sl (S n) udsm s
  = (Go (0, array_fill sl 0 (S n) 8, true), mk_machine (m_sps s) g1) /\
  ((S n <= length sl)%nat ->
   forall i, (i < S n)%nat -> nth i (array_fill sl 0 (S n) 8) 0 = 8).
Proof.
  intros Hue Hzero. split.
  - unfold scaling_list. cbn [scaling_list_loop].
    cbn [negb Z.eqb]. unfold bind at 1. unfold bind at 1. unfold ue at 1.
    rewrite Hue. cbn [negb Z.eqb]. unfold ret at 1.
    rewrite Hzero. cbn [negb Z.eqb andb].
    rewrite scaling_list_loop_idle by lia. reflexivity.
  - intros Hlen i Hi. apply array_fill_nth_in; lia.
Qed.

Lemma scaling_list_first_zero_selects_default_witness :
  (get_ue_golomb (getbit_init [x01; xf2] 16) 0
   = (0, 248, gb_skip 15 (getbit_init [x01; xf2] 16)) /\
   u32 (u32 (8 + 248) + 256) mod 256 = 0) /\
  scaling_list (repeat 0 16) 16 false
    (mk_machine sps_zero (getbit_init [x01; xf2] 16))
  = (Go (0, repeat 8 16, true),
     mk_machine sps_zero (gb_skip 15 (getbit_init [x01; xf2] 16))).
Proof.
  assert (H1 : get_ue_golomb (getbit_init [x01; xf2] 16) 0
               = (0, 248, gb_skip 15 (getbit_init [x01; xf2] 16)))
    by (vm_compute; reflexivity).
  assert (H2 : u32 (u32 (8 + 248) + 256) mod 256 = 0)
    by (vm_compute; reflexivity).
  split; [split; assumption|].
  exact (proj1 (scaling_list_first_zero_selects_default (repeat 0 16) 15
                  false (mk_machine sps_zero (getbit_init [x01; xf2] 16))
                  248 _ H1 H2)).
Defined.

(** ** The scaling matrix *)

Lemma bind_bits_left {B} (k : Z -> M B) (s : machine) :
  bind bits_left k s = k (getbit_get_left (m_gb s)) s.
Proof. reflexivity. Qed.

Lemma bind_bit {B} (k : Z -> M B) (s : machine) :
  bind bit k s
  = k (fst (get_bit (m_gb s)))
      (mk_machine (m_sps s) (snd (get_bit (m_gb s)))).
Proof. unfold bind, bit. destruct (get_bit (m_gb s)). reflexivity. Qed.

Lemma bind_ue {B} (k : Z * Z -> M B) (valp : Z) (s : machine) :
  bind (ue valp) k s
  = k (fst (fst (get_ue_golomb (m_gb s) valp)),
       snd (fst (get_ue_golomb (m_gb s) valp)))
      (mk_machine (m_sps s) (snd (get_ue_golomb (m_gb s) valp))).
Proof.
  unfold bind, ue. destruct (get_ue_golomb (m_gb s) valp) as [[e v] g].
  reflexivity.
Qed.

Lemma skipper_post_advanced {A} (code : A -> Z) (s s1 : machine)
    (r : flow A * machine) :
  m_sps s1 = m_sps s -> advanced (m_gb s) (m_gb s1) ->
  skipper_post code s1 r -> skipper_post code s r.
Proof.
  intros Hs Ha. unfold skipper_post. destruct r as [[a|e] s']; [|auto].
  intros (Hs' & Ha' & Hc). split; [congruence|].
  split; [eapply advanced_trans; eassumption|exact Hc].
Qed.

Lemma scaling_list_loop_frame (n : nat) :
  forall j lastscale nextscale sl udsm s,
    skipper_post (fun a => fst (fst a)) s
      (scaling_list_loop n j lastscale nextscale sl udsm s).
Proof.
  induction n as [|n IH]; intros j lastscale nextscale sl udsm s;
    cbn [scaling_list_loop].
  - unfold ret, skipper_post. cbn [fst m_sps m_gb].
    split; [reflexivity|]. split; [apply advanced_refl|auto].
  - destruct (negb (nextscale =? 0)).
    + unfold bind at 1. rewrite bind_ue.
      pose proof (get_ue_golomb_keeps (advanced (m_gb s))
                    (advanced_get_bit (m_gb s)) (m_gb s) 0
                    (advanced_refl _)) as Ha.
      destruct (get_ue_golomb_cases (m_gb s) 0)
        as [(g' & Hg & Hl)|(v & g' & Hg & Hv)]; rewrite Hg in *;
        cbn [fst snd negb Z.eqb EBADMSG] in *.
      * unfold ret. cbn [negb Z.eqb]. unfold skipper_post.
        cbn [fst m_sps m_gb]. split; [reflexivity|]. split; [exact Ha|].
        right. auto.
      * unfold ret at 1. cbn [negb Z.eqb].
        eapply skipper_post_advanced; [| |apply IH]; cbn [m_sps m_gb]; auto.
    + unfold bind at 1. unfold ret at 1. cbn [negb Z.eqb]. apply IH.
Qed.

Lemma decode_scaling_matrix_loop_frame (n : nat) :
  forall i s4 s8 ud s,
    skipper_post (fun a => a) s (decode_scaling_matrix_loop n i s4 s8 ud s).
Proof.
  induction n as [|n IH]; intros i s4 s8 ud s;
    cbn [decode_scaling_matrix_loop].
  - unfold ret, skipper_post. cbn [m_sps m_gb].
    split; [reflexivity|]. split; [apply advanced_refl|auto].
  - rewrite bind_bits_left.
    destruct (Z.ltb_spec (getbit_get_left (m_gb s)) 1) as [Hl|Hl].
    { unfold ret, skipper_post. cbn [m_sps m_gb].
      split; [reflexivity|]. split; [apply advanced_refl|].
      right. pose proof (getbit_get_left_nonneg (m_gb s)). split; [auto|lia]. }
    rewrite bind_bit.
    set (s1 := mk_machine (m_sps s) (snd (get_bit (m_gb s)))).
    assert (Ha1 : advanced (m_gb s) (m_gb s1))
      by (apply advanced_get_bit, advanced_refl).
    assert (Hs1 : m_sps s1 = m_sps s) by reflexivity.
    destruct (negb (fst (get_bit (m_gb s)) =? 0)).
    2:{ eapply skipper_post_advanced; [exact Hs1|exact Ha1|apply IH]. }
    assert (Hsl : forall sl k (Hk : forall sl' u', M Z),
      (forall sl' u' s2, skipper_post (fun a => a) s2 (Hk sl' u' s2)) ->
      skipper_post (fun a => a) s
        (bind (scaling_list sl k (nth (Z.to_nat i) ud false))
           (fun x => let '(err, sl', u') := x in
                     if negb (err =? 0) then ret err else Hk sl' u') s1)).
    { intros sl k Hk HHk. unfold bind, scaling_list.
      pose proof (scaling_list_loop_frame k 0 8 8 sl
                    (nth (Z.to_nat i) ud false) s1) as Hf.
      destruct (scaling_list_loop k 0 8 8 sl _ s1)
        as [[[[e sl'] u']|e] s2]; unfold skipper_post in Hf;
        [|contradiction].
      cbn [fst] in Hf. destruct Hf as (Hs2 & Ha2 & Hc).
      assert (Ha : advanced (m_gb s) (m_gb s2))
        by (eapply advanced_trans; eassumption).
      destruct Hc as [->|[-> Hl2]]; cbn [negb Z.eqb EBADMSG].
      - eapply skipper_post_advanced; [| |apply HHk]; [congruence|exact Ha].
      - unfold ret, skipper_post. split; [congruence|]. split; [exact Ha|].
        right. auto. }
    destruct (i <? 6).
    + apply (Hsl s4 16%nat
               (fun sl' u' =>
                  decode_scaling_matrix_loop n (i + 1) sl' s8
                    (array_set ud (Z.to_nat i) u'))).
      intros. apply IH.
    + apply (Hsl s8 64%nat
               (fun sl' u' =>
                  decode_scaling_matrix_loop n (i + 1) s4 sl'
                    (array_set ud (Z.to_nat i) u'))).
      intros. apply IH.
Qed.

(** X8. [decode_scaling_matrix] never leaves the decoder by itself and
    never touches the output record; the cursor only advances; it
    returns 0 or [EBADMSG], and [EBADMSG] only with the cursor
    exhausted: the scaling values themselves are never rejected. *)
Theorem decode_scaling_matrix_only_skips (chroma : Z) (s : machine) :
  exists e s',
    decode_scaling_matrix chroma s = (Go e, s') /\
    m_sps s' = m_sps s /\ advanced (m_gb s) (m_gb s') /\
    (e = 0 \/ (e = EBADMSG /\ getbit_get_left (m_gb s') = 0)).
Proof.
  unfold decode_scaling_matrix.
  pose proof (decode_scaling_matrix_loop_frame
                (if negb (chroma =? 3) then 8%nat else 12%nat) 0
                (repeat 0 16) (repeat 0 64) (repeat false 12) s) as H.
  destruct (decode_scaling_matrix_loop _ _ _ _ _ s) as [[e|e] s'];
    unfold skipper_post in H; [|contradiction].
  exists e, s'. split; [reflexivity|exact H].
Qed.

Lemma decode_scaling_matrix_loop_truncated (n : nat) :
  forall i s4 s8 ud s,
    getbit_get_left (m_gb s) < Z.of_nat n ->
    fst (decode_scaling_matrix_loop n i s4 s8 ud s) = Go EBADMSG.
Proof.
  induction n as [|n IH]; intros i s4 s8 ud s Hl.
  - pose proof (getbit_get_left_nonneg (m_gb s)). lia.
  - cbn [decode_scaling_matrix_loop]. rewrite bind_bits_left.
    destruct (Z.ltb_spec (getbit_get_left (m_gb s)) 1) as [H1|H1];
      [reflexivity|].
    rewrite bind_bit.
    set (s1 := mk_machine (m_sps s) (snd (get_bit (m_gb s)))).
    assert (Hl1 : getbit_get_left (m_gb s1) < Z.of_nat n).
    { unfold s1. cbn [m_gb]. rewrite get_bit_step by lia.
      rewrite getbit_get_left_step by lia. lia. }
    destruct (negb (fst (get_bit (m_gb s)) =? 0)); [|apply IH; exact Hl1].
    assert (Hsl : forall sl k (Hk : forall sl' u', M Z),
      (forall sl' u' s2, getbit_get_left (m_gb s2) < Z.of_nat n ->
                         fst (Hk sl' u' s2) = Go EBADMSG) ->
      fst (bind (scaling_list sl k (nth (Z.to_nat i) ud false))
             (fun x => let '(err, sl', u') := x in
                       if negb (err =? 0) then ret err else Hk sl' u') s1)
      = Go EBADMSG).
    { intros sl k Hk HHk. unfold bind, scaling_list.
      pose proof (scaling_list_loop_frame k 0 8 8 sl
                    (nth (Z.to_nat i) ud false) s1) as Hf.
      destruct (scaling_list_loop k 0 8 8 sl _ s1)
        as [[[[e sl'] u']|e] s2]; unfold skipper_post in Hf;
        [|contradiction].
      cbn [fst] in Hf. destruct Hf as (_ & (_ & _ & _ & Hle & _) & Hc).
      destruct Hc as [->|[-> _]]; cbn [negb Z.eqb EBADMSG].
      - apply HHk. lia.
      - reflexivity. }
    destruct (i <? 6).
    + apply (Hsl s4 16%nat
               (fun sl' u' =>
                  decode_scaling_matrix_loop n (i + 1) sl' s8
                    (array_set ud (Z.to_nat i) u'))).
      intros. apply IH. assumption.
    + apply (Hsl s8 64%nat
               (fun sl' u' =>
                  decode_scaling_matrix_loop n (i + 1) s4 sl'
                    (array_set ud (Z.to_nat i) u'))).
      intros. apply IH. assumption.
Qed.

(** X9. With fewer bits left than there are lists (8, or 12 when
    [chroma_format_idc] is 3), [decode_scaling_matrix] returns
    [EBADMSG], whatever those bits are. *)
Theorem decode_scaling_matrix_truncated (chroma : Z) (s : machine) :
  getbit_get_left (m_gb s) < (if chroma =? 3 then 12 else 8) ->
  fst (decode_scaling_matrix chroma s) = Go EBADMSG.
Proof.
  intros H. unfold decode_scaling_matrix.
  apply decode_scaling_matrix_loop_truncated.
  destruct (chroma =? 3); cbn [negb]; lia.
Qed.

Lemma decode_scaling_matrix_truncated_witness :
  getbit_get_left (m_gb (mk_machine sps_zero (getbit_init [x00] 7)))
  < (if 1 =? 3 then 12 else 8) /\
  fst (decode_scaling_matrix 1 (mk_machine sps_zero (getbit_init [x00] 7)))
  = Go EBADMSG.
Proof.
  assert (H : getbit_get_left
                (m_gb (mk_machine sps_zero (getbit_init [x00] 7)))
              < (if 1 =? 3 then 12 else 8))
    by (vm_compute; reflexivity).
  split; [exact H|].
  exact (decode_scaling_matrix_truncated 1 _ H).
Defined.

Lemma decode_scaling_matrix_loop_absent (n : nat) :
  forall i s4 s8 ud s,
    Z.of_nat n <= getbit_get_left (m_gb s) ->
    peek_bits n (m_gb s) = repeat false n ->
    decode_scaling_matrix_loop n i s4 s8 ud s
    = (Go 0, mk_machine (m_sps s) (gb_skip n (m_gb s))).
Proof.
  induction n as [|n IH]; intros i s4 s8 ud s Hl Hp;
    cbn [decode_scaling_matrix_loop gb_skip].
  - destruct s. reflexivity.
  - rewrite bind_bits_left.
    destruct (Z.ltb_spec (getbit_get_left (m_gb s)) 1); [lia|].
    rewrite bind_bit, get_bit_peek by lia.
    cbn [peek_bits repeat] in Hp. injection Hp as Hb Hp.
    rewrite Hb. cbn [fst snd Z.b2z Z.eqb negb].
    rewrite IH; cbn [m_sps m_gb]; auto.
    rewrite getbit_get_left_step; lia.
Qed.

(** X10. When the presence flags of all the lists are 0 (8 flags, 12
    when [chroma_format_idc] is 3), [decode_scaling_matrix] succeeds
    and consumes exactly those flag bits. *)
Theorem decode_scaling_matrix_no_lists (chroma : Z) (n : nat)
    (s : machine) :
  n = (if chroma =? 3 then 12%nat else 8%nat) ->
  Z.of_nat n <= getbit_get_left (m_gb s) ->
  peek_bits n (m_gb s) = repeat false n ->
  decode_scaling_matrix chroma s
  = (Go 0, mk_machine (m_sps s) (gb_skip n (m_gb s))).
Proof.
  intros Hn Hl Hp. unfold decode_scaling_matrix.
  replace (if negb (chroma =? 3) then 8%nat else 12%nat) with n
    by (subst n; destruct (chroma =? 3); reflexivity).
  apply decode_scaling_matrix_loop_absent; assumption.
Qed.

Lemma decode_scaling_matrix_no_lists_witness :
  (12%nat = (if 3 =? 3 then 12%nat else 8%nat) /\
   Z.of_nat 12
   <= getbit_get_left
        (m_gb (mk_machine sps_zero (getbit_init [x00; x0f] 16))) /\
   peek_bits 12 (m_gb (mk_machine sps_zero (getbit_init [x00; x0f] 16)))
   = repeat false 12) /\
  decode_scaling_matrix 3 (mk_machine sps_zero (getbit_init [x00; x0f] 16))
  = (Go 0,
     mk_machine sps_zero (gb_skip 12 (getbit_init [x00; x0f] 16))).
Proof.
  assert (H0 : 12%nat = (if 3 =? 3 then 12%nat else 8%nat))
    by reflexivity.
  assert (H1 : Z.of_nat 12
               <= getbit_get_left
                    (m_gb (mk_machine sps_zero
                             (getbit_init [x00; x0f] 16))))
    by (vm_compute; discriminate).
  assert (H2 : peek_bits 12
                 (m_gb (mk_machine sps_zero (getbit_init [x00; x0f] 16)))
               = repeat false 12)
    by (vm_compute; reflexivity).
  split; [split; [exact H0|split; assumption]|].
  exact (decode_scaling_matrix_no_lists 3 12 _ H0 H1 H2).
Defined.

(** ** Header fields *)

Lemma sps_id_checked (sid : Z) :
  0 <= sid < 2 ^ 32 -> (sid >=? MAX_SPS_COUNT) = false ->
  0 <= u8 sid < MAX_SPS_COUNT.
Proof.
  unfold MAX_SPS_COUNT, u8. intros H Hc.
  rewrite Z.geb_leb in Hc. apply Z.leb_gt in Hc.
  rewrite Z.mod_small; lia.
Qed.

Lemma log2_checked (v : Z) :
  (u32 (v + 4) >? MAX_LOG2_MAX_FRAME_NUM) = false ->
  0 <= u32 (v + 4) <= MAX_LOG2_MAX_FRAME_NUM.
Proof.
  intros Hc. rewrite Z.gtb_ltb in Hc. apply Z.ltb_ge in Hc.
  pose proof (u32_range (v + 4)). lia.
Qed.

(** The final [return 0]: the header fields. *)
Ltac header_leaf :=
  unfold body_fields_post, sps_header; sps_fields;
  split; [reflexivity|];
  split; [eapply sps_id_checked; eassumption|];
  split;
  [lazymatch goal with
   | Hh : is_high_profile ?p = true |- is_high_profile ?p = false -> _ =>
       let Hf := fresh "Hf" in
       intros Hf; rewrite Hh in Hf; discriminate Hf
   | |- _ => intros _; reflexivity
   end|];
  split; [eapply log2_checked; eassumption|];
  split; [first [left; apply Z.eqb_eq; assumption
                |right; apply Z.eqb_eq; assumption]
         |assumption].

(** An early return: only [ENOTSUP] has something to show. *)
Ltac unsupported_leaf :=
  unfold body_fields_post, sps_unsupported; sps_fields;
  let H := fresh "H" in
  intros H;
  first [exfalso; cbv in H; discriminate H
        |split; [assumption|];
         split; [apply Z.eqb_neq; assumption|];
         split; [apply Z.eqb_neq; assumption|];
         split; [eapply log2_checked; eassumption|];
         repeat split; reflexivity].

Lemma h264_sps_decode_body_fields (buffer : list byte) (len : Z)
    (s : machine) :
  wp (h264_sps_decode_body buffer len) (body_fields_post buffer) s.
Proof.
  unfold h264_sps_decode_body.
  repeat wp_step.
  all: lazymatch goal with
       | |- body_fields_post _ (Exit _, _) => unsupported_leaf
       | |- body_fields_post _ (Go _, _) => header_leaf
       end.
Qed.

Lemma h264_sps_decode_fields (sps : h264_sps) (buffer : list byte)
    (err : Z) (sp : h264_sps) :
  h264_sps_decode sps buffer = (err, sp) ->
  (err = 0 -> sps_header buffer sp) /\
  (err = ENOTSUP -> sps_unsupported sp).
Proof.
  unfold h264_sps_decode, h264_sps_decode_run.
  destruct (Z.ltb_spec (Z.of_nat (length buffer)) 3) as [Hl|Hl].
  - intros H. injection H as <- <-.
    split; intros H; vm_compute in H; discriminate H.
  - pose proof (h264_sps_decode_body_fields buffer
                  (Z.of_nat (length buffer))
                  (mk_machine sps gb_unused)) as Hp.
    pose proof (h264_sps_decode_body_post buffer
                  (Z.of_nat (length buffer))
                  (mk_machine sps gb_unused)) as Hq.
    unfold wp, exec in *.
    destruct (h264_sps_decode_body _ _ _) as [[e|e] s'];
      intros H; injection H as <- <-;
      unfold body_fields_post in Hp; unfold body_post in Hq.
    + destruct Hp as (-> & Hp). split; [auto|].
      intros H; vm_compute in H; discriminate H.
    + split; [|exact Hp]. intros ->.
      destruct Hq as ([Hq|[Hq _]] & _); vm_compute in Hq; discriminate Hq.
Qed.

(** X11. A record returned with code 0 carries the profile and level
    bytes of the buffer, a [seq_parameter_set_id] below 32, a
    [log2_max_frame_num] of at most 16, a [pic_order_cnt_type] of 0 or
    2, and [chroma_format_idc] 1 unless the profile is one of the high
    profiles, which code the field. *)
Theorem sps_decode_header_fields (sps : h264_sps) (buffer : list byte)
    (sp : h264_sps) :
  h264_sps_decode sps buffer = (0, sp) ->
  profile_idc sp = byte_val (nth 0 buffer x00) /\
  level_idc sp = byte_val (nth 2 buffer x00) /\
  0 <= seq_parameter_set_id sp < 32 /\
  (is_high_profile (profile_idc sp) = false -> chroma_format_idc sp = 1) /\
  0 <= log2_max_frame_num sp <= 16 /\
  (pic_order_cnt_type sp = 0 \/ pic_order_cnt_type sp = 2) /\
  0 <= max_num_ref_frames sp < 2 ^ 32.
Proof.
  intros H.
  destruct (h264_sps_decode_fields sps buffer 0 sp H) as [Hh _].
  specialize (Hh eq_refl).
  destruct (h264_sps_decode_cases sps buffer 0 sp H)
    as [(_ & He & _)|[(_ & _ & Hp & Hlv & _)|(_ & [He|[He _]] & _)]];
    try (vm_compute in He; discriminate He).
  split; [exact Hp|]. split; [exact Hlv|].
  rewrite Hp. exact Hh.
Qed.

Lemma sps_decode_header_fields_witness :
  h264_sps_decode sps_zero [x42; x00; x1e; xdd; xe0]
  = (0, sps_baseline_16x16) /\
  profile_idc sps_baseline_16x16 = 66 /\
  seq_parameter_set_id sps_baseline_16x16 = 0 /\
  chroma_format_idc sps_baseline_16x16 = 1 /\
  pic_order_cnt_type sps_baseline_16x16 = 2.
Proof.
  assert (H : h264_sps_decode sps_zero [x42; x00; x1e; xdd; xe0]
              = (0, sps_baseline_16x16))
    by (vm_compute; reflexivity).
  split; [exact H|].
  destruct (sps_decode_header_fields sps_zero _ _ H)
    as (Hp & _ & _ & Hc & _ & _ & _).
  split; [exact Hp|]. split; [reflexivity|].
  split; [apply Hc; reflexivity|reflexivity].
Defined.

(** X12. [ENOTSUP] is returned only for a [pic_order_cnt_type] other
    than 0 and 2: the record then holds that type and a
    [log2_max_frame_num] of at most 16, and none of the fields behind
    them has been decoded. *)
Theorem sps_decode_unsupported (sps : h264_sps) (buffer : list byte)
    (sp : h264_sps) :
  h264_sps_decode sps buffer = (ENOTSUP, sp) ->
  0 <= pic_order_cnt_type sp < 2 ^ 32 /\
  pic_order_cnt_type sp <> 0 /\ pic_order_cnt_type sp <> 2 /\
  0 <= log2_max_frame_num sp <= 16 /\
  max_num_ref_frames sp = 0 /\
  pic_width_in_mbs sp = 0 /\ pic_height_in_map_units sp = 0 /\
  width sp = 0 /\ height sp = 0.
Proof.
  intros H.
  destruct (h264_sps_decode_fields sps buffer ENOTSUP sp H) as [_ Hu].
  exact (Hu eq_refl).
Qed.

Lemma sps_decode_unsupported_witness :
  h264_sps_decode sps_zero poc_type_1_input
  = (ENOTSUP,
     set_pic_order_cnt_type 1
       (set_log2_max_frame_num 4 (set_level_idc 30 sps_zero))) /\
  pic_order_cnt_type
    (set_pic_order_cnt_type 1
       (set_log2_max_frame_num 4 (set_level_idc 30 sps_zero))) <> 2.
Proof.
  assert (H : h264_sps_decode sps_zero poc_type_1_input
              = (ENOTSUP,
                 set_pic_order_cnt_type 1
                   (set_log2_max_frame_num 4
                      (set_level_idc 30 sps_zero))))
    by (vm_compute; reflexivity).
  split; [exact H|].
  destruct (sps_decode_unsupported sps_zero _ _ H) as (_ & _ & H2 & _).
  exact H2.
Defined.

(** ** Empty and all-zero payloads *)

Lemma buf_gb_skip (n : nat) : forall g, buf (gb_skip n g) = buf g.
Proof.
  induction n as [|n IH]; intros g; cbn [gb_skip]; [reflexivity|].
  rewrite IH. reflexivity.
Qed.

Lemma peek_bits_zero (n : nat) : forall g,
  Forall (fun b => b = x00) (buf g) -> peek_bits n g = repeat false n.
Proof.
  induction n as [|n IH]; intros g Hz; cbn [peek_bits repeat];
    [reflexivity|].
  rewrite IH by exact Hz. f_equal.
  unfold peek_bit.
  assert (Hb : nth (Z.to_nat (pos g / 8)) (buf g) x00 = x00).
  { destruct (Nat.lt_ge_cases (Z.to_nat (pos g / 8)) (length (buf g)))
      as [Hlt|Hge].
    - rewrite Forall_forall in Hz. apply Hz, nth_In, Hlt.
    - apply nth_overflow, Hge. }
  rewrite Hb. apply Z.testbit_0_l.
Qed.

(** X13. A buffer of at least three bytes whose payload (the bytes from
    offset 3 on) is empty or consists of zero bytes only is rejected
    with [EBADMSG]; the record comes back zeroed, with [level_idc]
    set. *)
Theorem sps_decode_zero_payload (sps : h264_sps) (buffer : list byte) :
  (3 <= length buffer)%nat ->
  Forall (fun b => b = x00) (skipn 3 buffer) ->
  h264_sps_decode sps buffer
  = (EBADMSG, set_level_idc (byte_val (nth 2 buffer x00)) sps_zero).
Proof.
  intros Hl Hz. unfold h264_sps_decode, h264_sps_decode_run.
  destruct (Z.ltb_spec (Z.of_nat (length buffer)) 3); [lia|].
  unfold exec, h264_sps_decode_body.
  set (g := getbit_init (skipn 3 buffer)
              (u64 ((Z.of_nat (length buffer) - 3) * 8))).
  assert (Hg : exists g', get_ue_golomb g 0 = (EBADMSG, 0, g')).
  { pose proof (getbit_get_left_nonneg g) as Hn.
    destruct (ue_zeros_all_zero (Z.to_nat (getbit_get_left g)) g 0)
      as [He _].
    - rewrite Z2Nat.id; [reflexivity|exact Hn].
    - apply peek_bits_zero. exact Hz.
    - unfold get_ue_golomb.
      destruct (ue_zeros g 0) as [[e z] g1]. cbn [fst] in He. subst e.
      exists g1. reflexivity. }
  destruct Hg as [g' Hg].
  repeat (erewrite bind_go by reflexivity).
  rewrite bind_ue. cbn [m_gb m_sps]. fold g. rewrite Hg.
  reflexivity.
Qed.

Lemma sps_decode_zero_payload_witness :
  ((3 <= length [x64; x00; x28])%nat /\
   Forall (fun b => b = x00) (skipn 3 [x64; x00; x28])) /\
  h264_sps_decode sps_baseline_16x16 [x64; x00; x28]
  = (EBADMSG, set_level_idc 40 sps_zero).
Proof.
  assert (H1 : (3 <= length [x64; x00; x28])%nat) by (simpl; lia).
  assert (H2 : Forall (fun b => b = x00) (skipn 3 [x64; x00; x28]))
    by (simpl; constructor).
  split; [split; assumption|].
  exact (sps_decode_zero_payload sps_baseline_16x16 _ H1 H2).
Defined.

(** ** How much of the stream a successful call consumes *)

Lemma get_bit_left (g : getbit) :
  getbit_get_left (snd (get_bit g)) <= getbit_get_left g /\
  (1 <= getbit_get_left g ->
   getbit_get_left (snd (get_bit g)) = getbit_get_left g - 1).
Proof.
  split.
  - destruct (advanced_get_bit g g (advanced_refl g))
      as (_ & _ & _ & Hl & _). exact Hl.
  - intros H. rewrite get_bit_step, getbit_get_left_step by exact H.
    reflexivity.
Qed.

Lemma consumed_get_bit (g0 : getbit) (k : Z) (g : getbit) :
  consumed g0 k g -> consumed g0 k (snd (get_bit g)).
Proof. unfold consumed. pose proof (get_bit_left g). lia. Qed.

Lemma consumed_ue_zeros (g0 : getbit) (k : Z) (g : getbit) (z : Z) :
  consumed g0 k g -> consumed g0 k (snd (ue_zeros g z)).
Proof. apply (ue_zeros_keeps _ (consumed_get_bit g0 k)). Qed.

Lemma consumed_ue_info (g0 : getbit) (k : Z) (n : nat) (g : getbit)
    (info : Z) :
  consumed g0 k g -> consumed g0 k (snd (ue_info n g info)).
Proof. apply (ue_info_keeps _ (consumed_get_bit g0 k)). Qed.

(** The scan for the terminating one ends after one bit, after two, or
    after more than two. *)
Lemma ue_zeros_consumes (g : getbit) (z : Z) :
  fst (fst (ue_zeros g z)) = 0 ->
  (snd (fst (ue_zeros g z)) = z /\
   getbit_get_left (snd (ue_zeros g z)) + 1 = getbit_get_left g) \/
  (snd (fst (ue_zeros g z)) = u32 (z + 1) /\
   getbit_get_left (snd (ue_zeros g z)) + 2 = getbit_get_left g) \/
  getbit_get_left (snd (ue_zeros g z)) + 3 <= getbit_get_left g.
Proof.
  rewrite ue_zeros_eq.
  destruct (Z.ltb_spec (getbit_get_left g) 1) as [Hl|Hl];
    [intros H; vm_compute in H; discriminate H|].
  pose proof (get_bit_left g) as [_ H1]. specialize (H1 Hl).
  destruct (fst (get_bit g) =? 0); [|intros _; left; cbn [fst snd]; lia].
  set (g1 := snd (get_bit g)) in *.
  rewrite ue_zeros_eq.
  destruct (Z.ltb_spec (getbit_get_left g1) 1) as [Hl1|Hl1];
    [intros H; vm_compute in H; discriminate H|].
  pose proof (get_bit_left g1) as [_ H2]. specialize (H2 Hl1).
  destruct (fst (get_bit g1) =? 0);
    [|intros _; right; left; cbn [fst snd]; lia].
  set (g2 := snd (get_bit g1)) in *.
  intros He. right. right.
  rewrite ue_zeros_eq in *.
  destruct (Z.ltb_spec (getbit_get_left g2) 1) as [Hl2|Hl2];
    [vm_compute in He; discriminate He|].
  pose proof (get_bit_left g2) as [_ H3]. specialize (H3 Hl2).
  destruct (fst (get_bit g2) =? 0); [|cbn [snd]; lia].
  apply (consumed_ue_zeros g 3). unfold consumed. lia.
Qed.

(** A code costs one bit when its value is 0 and at least three
    otherwise. *)
Lemma get_ue_golomb_consumes (g : getbit) (valp v : Z) (g' : getbit) :
  get_ue_golomb g valp = (0, v, g') ->
  getbit_get_left g' + 1 <= getbit_get_left g /\
  (v <> 0 -> getbit_get_left g' + 3 <= getbit_get_left g).
Proof.
  unfold get_ue_golomb.
  pose proof (ue_zeros_consumes g 0) as Hz.
  destruct (ue_zeros g 0) as [[e z] g1]. cbn [fst snd] in Hz.
  destruct (Z.eqb_spec e 0) as [->|Hne]; cbn [negb];
    [|intros H; injection H as He _ _; contradiction].
  specialize (Hz eq_refl).
  set (n := Z.to_nat (int_of_u32 (u32 (z - 1)) + 1)).
  destruct Hz as [[Hz Hl]|[[Hz Hl]|Hl]].
  - subst z. change n with 0%nat. cbn [ue_info negb Z.eqb].
    intros H. injection H as Hv Hg. subst g'.
    split; [lia|]. intros Hv'. exfalso. apply Hv'. rewrite <- Hv.
    reflexivity.
  - subst z. change n with 1%nat. cbn [ue_info].
    destruct (Z.ltb_spec (getbit_get_left g1) 1) as [Hl1|Hl1];
      [intros H; vm_compute in H; discriminate H|].
    pose proof (get_bit_left g1) as [_ H2]. specialize (H2 Hl1).
    destruct (get_bit g1) as [b g2]. cbn [snd negb Z.eqb] in *.
    intros H. injection H as _ Hg. subst g'. lia.
  - pose proof (consumed_ue_info g 3 n g1 (shl32 1 z) Hl) as Hi.
    unfold consumed in Hi.
    destruct (ue_info n g1 (shl32 1 z)) as [[e' i] g2]. cbn [snd] in Hi.
    destruct (negb (e' =? 0)); intros H; inversion H; subst; lia.
Qed.

Lemma wpl_bits_left Q s :
  Q (Go (getbit_get_left (m_gb s)), s) -> wp bits_left Q s.
Proof. auto. Qed.

Lemma wpl_bit Q s :
  (forall b g,
     getbit_get_left g <= getbit_get_left (m_gb s) ->
     (1 <= getbit_get_left (m_gb s) ->
      getbit_get_left g = getbit_get_left (m_gb s) - 1) ->
     Q (Go b, mk_machine (m_sps s) g)) ->
  wp bit Q s.
Proof.
  intros H. unfold wp, bit.
  pose proof (get_bit_left (m_gb s)) as [H1 H2].
  destruct (get_bit (m_gb s)) as [b g]. apply H; assumption.
Qed.

Lemma wpl_ue (valp : Z) Q s :
  (forall g, Q (Go (EBADMSG, valp), mk_machine (m_sps s) g)) ->
  (forall v g,
     getbit_get_left g + 1 <= getbit_get_left (m_gb s) ->
     (v <> 0 -> getbit_get_left g + 3 <= getbit_get_left (m_gb s)) ->
     Q (Go (0, v), mk_machine (m_sps s) g)) ->
  wp (ue valp) Q s.
Proof.
  intros Hf Hs. unfold wp, ue.
  destruct (get_ue_golomb_cases (m_gb s) valp)
    as [(g' & Hg & _)|(v & g' & Hg & Hv)]; rewrite Hg; [apply Hf|].
  destruct (get_ue_golomb_consumes _ _ _ _ Hg). apply Hs; assumption.
Qed.

Lemma wpl_ue_null Q s :
  (forall g, Q (Go EBADMSG, mk_machine (m_sps s) g)) ->
  (forall g, getbit_get_left g + 1 <= getbit_get_left (m_gb s) ->
             Q (Go 0, mk_machine (m_sps s) g)) ->
  wp ue_null Q s.
Proof.
  intros Hf Hs. unfold ue_null.
  apply wp_bind, wpl_ue; intros; apply wp_ret; auto.
Qed.

Lemma wpl_ue_sps get set Q s :
  (forall g, Q (Go EBADMSG,
                mk_machine (set (get (m_sps s)) (m_sps s)) g)) ->
  (forall v g,
     getbit_get_left g + 1 <= getbit_get_left (m_gb s) ->
     (v <> 0 -> getbit_get_left g + 3 <= getbit_get_left (m_gb s)) ->
     Q (Go 0, mk_machine (set v (m_sps s)) g)) ->
  wp (ue_sps get set) Q s.
Proof.
  intros Hf Hs. unfold ue_sps.
  apply wp_bind, wp_load. apply wp_bind, wpl_ue; intros;
    (apply wp_bind, wp_store; apply wp_ret); cbn [m_sps m_gb]; auto.
Qed.

Lemma wpl_decode_scaling_matrix (c : Z) Q s :
  (forall e g, e = 0 \/ e = EBADMSG ->
               getbit_get_left g <= getbit_get_left (m_gb s) ->
               Q (Go e, mk_machine (m_sps s) g)) ->
  wp (decode_scaling_matrix c) Q s.
Proof.
  intros H. unfold decode_scaling_matrix.
  pose proof (decode_scaling_matrix_loop_frame
                (if negb (c =? 3) then 8%nat else 12%nat) 0
                (repeat 0 16) (repeat 0 64) (repeat false 12) s) as Hp.
  unfold wp in *.
  destruct (decode_scaling_matrix_loop _ _ _ _ _ s) as [[e|e] [sp g]];
    unfold skipper_post in Hp; cbn [m_sps m_gb] in Hp; [|contradiction].
  destruct Hp as (Hsp & (_ & _ & _ & Hle & _) & He). subst sp.
  apply H; [|exact Hle]. destruct He as [He|[He _]]; auto.
Qed.

(** One statement of the code under [wp], keeping count of the bits
    left. *)
Ltac wpl_step :=
  lazymatch goal with
  | |- wp (bind _ _) _ _ => apply wp_bind
  | |- wp (ret _) _ _ => apply wp_ret
  | |- wp (Return _) _ _ => apply wp_Return
  | |- wp (return_if _ _) _ _ =>
      apply wp_return_if;
      (let H := fresh "Hc" in intros H; wp_clean H)
  | |- wp load _ _ => apply wp_load
  | |- wp (store _) _ _ => apply wp_store
  | |- wp (init_gb _ _) _ _ => apply wp_init_gb
  | |- wp bits_left _ _ => apply wpl_bits_left
  | |- wp bit _ _ => apply wpl_bit; intros ? ? ? ?
  | |- wp (ue _) _ _ => apply wpl_ue; [intros ?|intros ? ? ? ?]
  | |- wp ue_null _ _ => apply wpl_ue_null; [intros ?|intros ? ?]
  | |- wp (ue_sps _ _) _ _ =>
      apply wpl_ue_sps; [intros ?|intros ? ? ? ?]
  | |- wp (decode_scaling_matrix _) _ _ =>
      apply wpl_decode_scaling_matrix;
      (let H := fresh "He" in intros ? ? H ?; destruct H as [-> | ->])
  | |- wp (if _ then _ else _) _ _ =>
      apply wp_if; (let H := fresh "Hc" in intros H; wp_clean H)
  end; wp_norm.

(** The final [return 0]: add up what the reads consumed. *)
Ltac bits_leaf :=
  unfold body_bits_post; cbn [m_gb] in *;
  repeat match goal with
         | H : (_ <? _) = false |- _ => apply Z.ltb_ge in H
         | H : (_ =? _) = true |- _ => apply Z.eqb_eq in H
         | H : (_ >? _) = _ |- _ => clear H
         | H : (_ || _) = _ |- _ => clear H
         | H : negb _ = _ |- _ => clear H
         | H : (_ =? _) = false |- _ => clear H
         | H : is_high_profile _ = _ |- _ => clear H
         end;
  lia.

Lemma h264_sps_decode_body_bits (buffer : list byte) (len : Z)
    (s : machine) :
  wp (h264_sps_decode_body buffer len)
     (body_bits_post
        (getbit_get_left
           (getbit_init (skipn 3 buffer) (u64 ((len - 3) * 8))))) s.
Proof.
  unfold h264_sps_decode_body.
  repeat wpl_step.
  all: lazymatch goal with
       | |- body_bits_post _ (Exit _, _) => exact I
       | |- body_bits_post _ (Go _, _) => bits_leaf
       end.
Qed.

(** X14. A call that returns 0 has consumed at least 11 bits of the
    payload, so no buffer of fewer than 5 bytes is ever accepted. *)
Theorem sps_decode_consumes_11_bits (sps : h264_sps) (buffer : list byte)
    (sp : h264_sps) :
  h264_sps_decode sps buffer = (0, sp) ->
  11 <= pos (m_gb (snd (h264_sps_decode_run sps buffer))) /\
  (5 <= length buffer)%nat.
Proof.
  unfold h264_sps_decode, h264_sps_decode_run.
  destruct (Z.ltb_spec (Z.of_nat (length buffer)) 3) as [Hl|Hl];
    [intros H; vm_compute in H; discriminate H|].
  set (len := Z.of_nat (length buffer)) in *.
  pose proof (h264_sps_decode_body_bits buffer len
                (mk_machine sps gb_unused)) as Hb.
  pose proof (h264_sps_decode_body_post buffer len
                (mk_machine sps gb_unused)) as Hq.
  pose proof (h264_sps_decode_body_gb_ok buffer
                (mk_machine sps gb_unused) Hl) as Hok.
  fold len in Hok. unfold wp, exec in *.
  destruct (h264_sps_decode_body buffer len _) as [[e|e] s'];
    cbn [fst snd] in *; intros H; injection H as He _.
  2:{ subst e. destruct Hq as ([Hq|[Hq _]] & _);
        vm_compute in Hq; discriminate Hq. }
  unfold body_bits_post in Hb.
  destruct Hok as (_ & Hend & Hpos & _).
  unfold getbit_get_left, getbit_init in Hb. cbn [pos end_] in Hb.
  rewrite Hend in Hb.
  assert (He8 : u64 ((len - 3) * 8) <= (len - 3) * 8)
    by (apply Z.mod_le; lia).
  destruct (u64 ((len - 3) * 8) >? pos (m_gb s')) eqn:E1;
    destruct (u64 ((len - 3) * 8) >? 0) eqn:E2; lia.
Qed.

Lemma sps_decode_consumes_11_bits_witness :
  h264_sps_decode sps_zero [x42; x00; x1e; xfb; xc0]
  = (0, set_pic_order_cnt_type 0 sps_baseline_16x16) /\
  pos (m_gb (snd (h264_sps_decode_run sps_zero
                    [x42; x00; x1e; xfb; xc0]))) = 11 /\
  (5 <= length [x42; x00; x1e; xfb; xc0])%nat.
Proof.
  assert (H : h264_sps_decode sps_zero [x42; x00; x1e; xfb; xc0]
              = (0, set_pic_order_cnt_type 0 sps_baseline_16x16))
    by (vm_compute; reflexivity).
  split; [exact H|].
  destruct (sps_decode_consumes_11_bits sps_zero _ _ H) as [_ Hlen].
  split; [vm_compute; reflexivity|exact Hlen].
Defined.

(** ** Frame size *)

(** X15. In a record returned with code 0 both macroblock counts are
    below [MAX_MACROBLOCKS] = 2^20, so the frame size in pixels, 16
    times the counts, is computed without wrap-around and stays below
    2^24; [chroma_format_idc] is at most 3. *)
Theorem sps_decode_frame_size (sps : h264_sps) (buffer : list byte)
    (sp : h264_sps) :
  h264_sps_decode sps buffer = (0, sp) ->
  0 <= pic_width_in_mbs sp < 2 ^ 20 /\
  0 <= pic_height_in_map_units sp < 2 ^ 20 /\
  width sp = 16 * pic_width_in_mbs sp /\
  height sp = 16 * pic_height_in_map_units sp /\
  0 <= width sp < 2 ^ 24 /\ 0 <= height sp < 2 ^ 24 /\
  0 <= chroma_format_idc sp <= 3.
Proof.
  intros H.
  destruct (h264_sps_decode_cases sps buffer 0 sp H)
    as [(_ & He & _)|[(_ & _ & _ & _ & Hg)|(_ & [He|[He _]] & _)]];
    try discriminate He.
  destruct Hg as (fmo & cl & cr & ct & cb & Hg).
  destruct Hg as (_ & _ & Hc & Hw & Hh & Hpw & Hph & _).
  unfold MAX_MACROBLOCKS, MACROBLOCK_SIZE in *.
  change (2 ^ 20) with 1048576. change (2 ^ 24) with 16777216.
  repeat split; lia.
Qed.

Lemma sps_decode_frame_size_witness :
  h264_sps_decode sps_zero [x42; x00; x1e; xdd; xe0]
  = (0, sps_baseline_16x16) /\
  width sps_baseline_16x16 = 16 * pic_width_in_mbs sps_baseline_16x16 /\
  0 <= height sps_baseline_16x16 < 2 ^ 24.
Proof.
  assert (H : h264_sps_decode sps_zero [x42; x00; x1e; xdd; xe0]
              = (0, sps_baseline_16x16))
    by (vm_compute; reflexivity).
  split; [exact H|].
  destruct (sps_decode_frame_size sps_zero _ _ H)
    as (_ & _ & Hw & _ & _ & Hh & _).
  split; [exact Hw|exact Hh].
Defined.

(** ** Bytes behind the stream *)

Lemma extends_left (g g' : getbit) :
  extends g g' -> getbit_get_left g <= getbit_get_left g'.
Proof.
  intros (_ & Hp & _ & He & _). unfold getbit_get_left. rewrite Hp.
  destruct (end_ g >? pos g) eqn:E1; destruct (end_ g' >? pos g) eqn:E2;
    lia.
Qed.

Lemma extends_get_bit (g g' : getbit) :
  extends g g' -> 1 <= getbit_get_left g ->
  fst (get_bit g') = fst (get_bit g) /\
  extends (snd (get_bit g)) (snd (get_bit g')).
Proof.
  intros Hx Hl. pose proof (extends_left g g' Hx) as Hl'.
  destruct Hx as ((extra & Hb) & Hp & H0 & He & Hlen).
  assert (Hlt : pos g < end_ g).
  { unfold getbit_get_left in Hl.
    destruct (end_ g >? pos g) eqn:E; lia. }
  rewrite (get_bit_peek g), (get_bit_peek g') by lia. cbn [fst snd].
  split.
  - f_equal. unfold peek_bit. rewrite Hp, Hb. f_equal. f_equal.
    apply app_nth1. apply Nat2Z.inj_lt.
    rewrite Z2Nat.id by (apply Z.div_pos; lia).
    apply Z.div_lt_upper_bound; lia.
  - unfold extends, gb_step; cbn [buf pos end_].
    split; [exists extra; exact Hb|]. repeat split; lia.
Qed.

Lemma extends_ue_zeros (n : nat) : forall g g' z,
  getbit_get_left g <= Z.of_nat n -> extends g g' ->
  fst (fst (ue_zeros g z)) = 0 ->
  fst (ue_zeros g' z) = fst (ue_zeros g z) /\
  extends (snd (ue_zeros g z)) (snd (ue_zeros g' z)).
Proof.
  induction n as [|n IH]; intros g g' z Hn Hx;
    pose proof (extends_left g g' Hx) as Hl';
    rewrite (ue_zeros_eq g), (ue_zeros_eq g');
    (destruct (Z.ltb_spec (getbit_get_left g) 1) as [Hl|Hl];
     [intros H; vm_compute in H; discriminate H|]); [lia|].
  destruct (Z.ltb_spec (getbit_get_left g') 1); [lia|].
  destruct (extends_get_bit g g' Hx Hl) as [Hb Hx1]. rewrite Hb.
  destruct (fst (get_bit g) =? 0); [|intros _; split; [reflexivity|exact Hx1]].
  apply IH; [|exact Hx1].
  rewrite get_bit_step, getbit_get_left_step by lia. lia.
Qed.

Lemma extends_ue_info (n : nat) : forall g g' info,
  extends g g' ->
  fst (fst (ue_info n g info)) = 0 ->
  fst (ue_info n g' info) = fst (ue_info n g info) /\
  extends (snd (ue_info n g info)) (snd (ue_info n g' info)).
Proof.
  induction n as [|n IH]; intros g g' info Hx; cbn [ue_info].
  - intros _. split; [reflexivity|exact Hx].
  - pose proof (extends_left g g' Hx) as Hl'.
    destruct (Z.ltb_spec (getbit_get_left g) 1) as [Hl|Hl];
      [intros H; vm_compute in H; discriminate H|].
    destruct (Z.ltb_spec (getbit_get_left g') 1); [lia|].
    destruct (extends_get_bit g g' Hx Hl) as [Hb Hx1].
    destruct (get_bit g) as [b g1]. destruct (get_bit g') as [b' g1'].
    cbn [fst snd] in *. subst b'. apply IH. exact Hx1.
Qed.

(** A value decoded from a cursor is decoded from every extension of
    it. *)
Lemma extends_get_ue_golomb (g g' : getbit) (valp v : Z) (g1 : getbit) :
  extends g g' -> get_ue_golomb g valp = (0, v, g1) ->
  exists g1', get_ue_golomb g' valp = (0, v, g1') /\ extends g1 g1'.
Proof.
  intros Hx. unfold get_ue_golomb.
  pose proof (extends_ue_zeros (Z.to_nat (getbit_get_left g)) g g' 0) as Hz.
  destruct (ue_zeros g 0) as [[e z] gz].
  destruct (Z.eqb_spec e 0) as [->|Hne]; cbn [negb];
    [|intros H; inversion H; contradiction].
  destruct Hz as [Hz1 Hz2];
    [pose proof (getbit_get_left_nonneg g); lia|exact Hx|reflexivity|].
  destruct (ue_zeros g' 0) as [[e' z'] gz']. cbn [fst snd] in *.
  injection Hz1 as -> ->. cbn [negb Z.eqb].
  set (n := Z.to_nat (int_of_u32 (u32 (z - 1)) + 1)).
  pose proof (extends_ue_info n gz gz' (shl32 1 z) Hz2) as Hi.
  destruct (ue_info n gz (shl32 1 z)) as [[e i] gi].
  destruct (Z.eqb_spec e 0) as [->|Hne]; cbn [negb];
    [|intros H; inversion H; contradiction].
  destruct (Hi eq_refl) as [Hi1 Hi2].
  destruct (ue_info n gz' (shl32 1 z)) as [[e' i'] gi']. cbn [fst snd] in *.
  injection Hi1 as -> ->. cbn [negb Z.eqb].
  intros H. injection H as <- <-. exists gi'. split; [reflexivity|exact Hi2].
Qed.

Lemma sync_left (s s' : machine) :
  sync s s' -> getbit_get_left (m_gb s) <= getbit_get_left (m_gb s').
Proof. intros [_ Hx]. apply extends_left, Hx. Qed.

Lemma sim_weaken {A} (n n' : Z) (good : A -> Prop) (m : M A) :
  n <= n' -> sim n good m -> sim n' good m.
Proof.
  intros Hn Hm s s' a t Hs Hl. apply Hm; [exact Hs|lia].
Qed.

Lemma sim_ret {A} (n : Z) (good : A -> Prop) (a : A) : sim n good (ret a).
Proof.
  intros s s' a' t Hs _ H _. unfold ret in *. injection H as <- <-.
  exists s'. split; [reflexivity|exact Hs].
Qed.

Lemma sim_Return {A} (n : Z) (good : A -> Prop) (e : Z) :
  sim n good (@Return A e).
Proof. intros s s' a t _ _ H. discriminate H. Qed.

(** The general rule: [m] is matched on its good results, [k] carries
    on from those, and a result of [m] that is not good leads to
    nothing good. *)
Lemma sim_bind {A B} (n : Z) (goodA : A -> Prop) (good : B -> Prop)
    (m : M A) (k : A -> M B) :
  sim n goodA m ->
  (forall a, goodA a -> sim 0 good (k a)) ->
  (forall a, goodA a \/ dead good (k a)) ->
  sim n good (bind m k).
Proof.
  intros Hm Hk Hd s s' b t Hs Hl H Hb. unfold bind in *.
  destruct (m s) as [[a|e] s1] eqn:Em; [|discriminate H].
  assert (Ha : goodA a).
  { destruct (Hd a) as [Ha|Ha]; [exact Ha|].
    exfalso. exact (Ha s1 b t H Hb). }
  destruct (Hm s s' a s1 Hs Hl Em Ha) as (s1' & Em' & Hs1).
  rewrite Em'. apply (Hk a Ha s1 s1' b t Hs1); auto.
  apply getbit_get_left_nonneg.
Qed.

Lemma sim_bind_all {A B} (n : Z) (good : B -> Prop)
    (m : M A) (k : A -> M B) :
  sim n (fun _ => True) m ->
  (forall a, sim 0 good (k a)) ->
  sim n good (bind m k).
Proof.
  intros Hm Hk. apply (sim_bind n (fun _ => True)); auto.
Qed.

Lemma sim_bind_return_if {B} (n : Z) (good : B -> Prop) (c : bool)
    (e : Z) (k : unit -> M B) :
  (c = false -> sim n good (k tt)) ->
  sim n good (bind (return_if c e) k).
Proof.
  intros Hk s s' b t Hs Hl H Hb. unfold bind, return_if in *.
  destruct c; [discriminate H|]. cbn in *.
  apply (Hk eq_refl s s' b t); assumption.
Qed.

Lemma sim_bind_load {B} (n : Z) (good : B -> Prop)
    (k : h264_sps -> M B) :
  (forall sp, sim n good (k sp)) -> sim n good (bind load k).
Proof.
  intros Hk s s' b t Hs Hl H Hb. unfold bind, load in *.
  destruct Hs as [Hsp Hx]. rewrite Hsp.
  apply (Hk (m_sps s) s s' b t); try assumption. split; assumption.
Qed.

Lemma sim_bind_store {B} (n : Z) (good : B -> Prop)
    (f : h264_sps -> h264_sps) (k : unit -> M B) :
  sim n good (k tt) -> sim n good (bind (store f) k).
Proof.
  intros Hk s s' b t Hs Hl H Hb. unfold bind, store in *.
  destruct Hs as [Hsp Hx].
  apply (Hk (mk_machine (f (m_sps s)) (m_gb s))
            (mk_machine (f (m_sps s')) (m_gb s')) b t); try assumption.
  split; cbn [m_sps m_gb]; [rewrite Hsp; reflexivity|exact Hx].
Qed.

(** [if (getbit_get_left(gb) < n) return e;] grants the code behind it
    [n] bits. *)
Lemma sim_bits_left_check {B} (n0 n : Z) (good : B -> Prop) (e : Z)
    (k : M B) :
  sim n good k ->
  sim n0 good
    (bind bits_left (fun left => bind (return_if (left <? n) e)
                                      (fun _ => k))).
Proof.
  intros Hk s s' b t Hs _ H Hb. pose proof (sync_left s s' Hs) as Hl'.
  unfold bind, bits_left, return_if in *.
  destruct (Z.ltb_spec (getbit_get_left (m_gb s)) n) as [Hl|Hl];
    [discriminate H|].
  destruct (Z.ltb_spec (getbit_get_left (m_gb s')) n); [lia|].
  cbn in *. apply (Hk s s' b t); assumption.
Qed.

Lemma sim_bind_bit {B} (n : Z) (good : B -> Prop) (k : Z -> M B) :
  1 <= n -> (forall b, sim (n - 1) good (k b)) ->
  sim n good (bind bit k).
Proof.
  intros Hn Hk s s' b t [Hsp Hx] Hl H Hb. rewrite bind_bit in *.
  destruct (extends_get_bit _ _ Hx ltac:(lia)) as [Hbit Hx1].
  rewrite Hbit, Hsp.
  apply (Hk (fst (get_bit (m_gb s)))
            (mk_machine (m_sps s) (snd (get_bit (m_gb s)))) _ b t);
    [|cbn [m_gb]|exact H|exact Hb].
  - split; cbn [m_sps m_gb]; [reflexivity|exact Hx1].
  - rewrite get_bit_step, getbit_get_left_step by lia. lia.
Qed.

Lemma sim_bind_ue {B} (n : Z) (good : B -> Prop) (valp : Z)
    (k : Z * Z -> M B) :
  (forall v, sim 0 good (k (0, v))) ->
  dead good (k (EBADMSG, valp)) ->
  sim n good (bind (ue valp) k).
Proof.
  intros Hk Hd s s' b t [Hsp Hx] _ H Hb. rewrite bind_ue in *.
  destruct (get_ue_golomb_cases (m_gb s) valp)
    as [(g1 & Hg & _)|(v & g1 & Hg & _)]; rewrite Hg in H;
    cbn [fst snd] in H.
  - exfalso. exact (Hd _ _ _ H Hb).
  - destruct (extends_get_ue_golomb _ _ _ _ _ Hx Hg) as (g1' & Hg' & Hx1).
    rewrite Hg'. cbn [fst snd]. rewrite Hsp.
    apply (Hk v (mk_machine (m_sps s) g1) _ b t);
      [| |exact H|exact Hb].
    + split; cbn [m_sps m_gb]; [reflexivity|exact Hx1].
    + apply getbit_get_left_nonneg.
Qed.

Lemma bind_ue_null {B} (k : Z -> M B) (s : machine) :
  bind ue_null k s = bind (ue 0) (fun x => k (fst x)) s.
Proof.
  unfold ue_null, bind, ue, ret.
  destruct (get_ue_golomb (m_gb s) 0) as [[e v] g]. reflexivity.
Qed.

Lemma sim_bind_ue_null {B} (n : Z) (good : B -> Prop) (k : Z -> M B) :
  sim 0 good (k 0) -> dead good (k EBADMSG) ->
  sim n good (bind ue_null k).
Proof.
  intros Hk Hd s s' b t Hs Hl H Hb.
  rewrite bind_ue_null in *.
  assert (Hs' : sim n good (bind (ue 0) (fun x => k (fst x))))
    by (apply sim_bind_ue; [intros v; exact Hk|exact Hd]).
  apply (Hs' s s' b t Hs Hl H Hb).
Qed.

Lemma bind_ue_sps {B} get set (k : Z -> M B) (s : machine) :
  bind (ue_sps get set) k s
  = bind load (fun sp =>
      bind (ue (get sp)) (fun x =>
        bind (store (set (snd x))) (fun _ => k (fst x)))) s.
Proof.
  unfold ue_sps, bind, load, ue, store, ret. cbn [m_gb m_sps].
  destruct (get_ue_golomb (m_gb s) (get (m_sps s))) as [[e v] g].
  reflexivity.
Qed.

Lemma dead_bind {A B} (good : B -> Prop) (m : M A) (k : A -> M B) :
  (forall a, dead good (k a)) -> dead good (bind m k).
Proof.
  intros Hk s b t H. unfold bind in H.
  destruct (m s) as [[a|e] s1]; [|discriminate H].
  exact (Hk a s1 b t H).
Qed.

Lemma dead_ret {A} (good : A -> Prop) (a : A) :
  ~ good a -> dead good (ret a).
Proof. intros Ha s b t H. unfold ret in H. injection H as <- _. exact Ha. Qed.

Lemma dead_return_if {B} (good : B -> Prop) (c : bool) (e : Z)
    (k : unit -> M B) :
  c = true -> dead good (bind (return_if c e) k).
Proof. intros -> s b t H. discriminate H. Qed.

Lemma dead_bind_ue {B} (good : B -> Prop) (valp : Z) (k : Z * Z -> M B) :
  (forall v, dead good (k (0, v))) -> dead good (k (EBADMSG, valp)) ->
  dead good (bind (ue valp) k).
Proof.
  intros Hk Hd s b t H. rewrite bind_ue in H.
  destruct (get_ue_golomb_cases (m_gb s) valp)
    as [(g1 & Hg & _)|(v & g1 & Hg & _)]; rewrite Hg in H;
    cbn [fst snd] in H.
  - exact (Hd _ _ _ H).
  - exact (Hk v _ _ _ H).
Qed.

Lemma dead_bind_ue_null {B} (good : B -> Prop) (k : Z -> M B) :
  dead good (k 0) -> dead good (k EBADMSG) -> dead good (bind ue_null k).
Proof.
  intros Hk Hd s b t H. rewrite bind_ue_null in H.
  apply (dead_bind_ue good 0 (fun x => k (fst x))) in H; auto.
Qed.

Lemma sim_bind_ue_sps {B} (n : Z) (good : B -> Prop) get set
    (k : Z -> M B) :
  sim 0 good (k 0) -> dead good (k EBADMSG) ->
  sim n good (bind (ue_sps get set) k).
Proof.
  intros Hk Hd.
  assert (Hs : sim n good
                 (bind load (fun sp =>
                    bind (ue (get sp)) (fun x =>
                      bind (store (set (snd x)))
                           (fun _ => k (fst x)))))).
  { apply sim_bind_load. intros sp. apply sim_bind_ue.
    - intros v. cbn [fst snd]. apply sim_bind_store. exact Hk.
    - cbn [fst snd]. apply dead_bind. intros _. exact Hd. }
  intros s s' b t Hss Hl H Hb. rewrite bind_ue_sps in *.
  exact (Hs s s' b t Hss Hl H Hb).
Qed.

Lemma sim_bits_left_if {B} (n0 n : Z) (good : B -> Prop) (m1 m2 : M B) :
  dead good m1 -> sim n good m2 ->
  sim n0 good (bind bits_left (fun left => if left <? n then m1 else m2)).
Proof.
  intros Hd Hm s s' b t Hs _ H Hb. pose proof (sync_left s s' Hs) as Hl'.
  rewrite bind_bits_left in *.
  destruct (Z.ltb_spec (getbit_get_left (m_gb s)) n) as [Hl|Hl];
    [exfalso; exact (Hd _ _ _ H Hb)|].
  destruct (Z.ltb_spec (getbit_get_left (m_gb s')) n); [lia|].
  apply (Hm s s' b t); assumption.
Qed.

Lemma sim_scaling_list_loop (n : nat) :
  forall j lastscale nextscale sl udsm,
    sim 0 (fun a => fst (fst a) = 0)
        (scaling_list_loop n j lastscale nextscale sl udsm).
Proof.
  induction n as [|n IH]; intros j lastscale nextscale sl udsm;
    cbn [scaling_list_loop].
  - apply sim_ret.
  - apply (sim_bind 0 (fun a => fst (fst a) = 0)).
    + destruct (negb (nextscale =? 0)); [|apply sim_ret].
      apply sim_bind_ue.
      * intros v. cbn [negb Z.eqb]. apply sim_ret.
      * cbn [negb Z.eqb EBADMSG]. apply dead_ret. cbn [fst]. discriminate.
    + intros [[e nx] u] He. cbn [fst] in He. subst e. cbn [negb Z.eqb].
      apply IH.
    + intros [[e nx] u]. destruct (Z.eqb_spec e 0) as [->|Hne];
        [left; reflexivity|right]. cbn [negb].
      apply dead_ret. cbn [fst]. exact Hne.
Qed.

Lemma sim_decode_scaling_matrix_loop (n : nat) :
  forall i s4 s8 ud,
    sim 0 (fun e => e = 0) (decode_scaling_matrix_loop n i s4 s8 ud).
Proof.
  induction n as [|n IH]; intros i s4 s8 ud;
    cbn [decode_scaling_matrix_loop].
  - apply sim_ret.
  - apply sim_bits_left_if; [apply dead_ret; discriminate|].
    apply sim_bind_bit; [lia|]. intros b.
    apply (sim_weaken 0); [lia|].
    destruct (negb (b =? 0)); [|apply IH].
    destruct (i <? 6);
      (apply (sim_bind 0 (fun a => fst (fst a) = 0));
       [apply sim_scaling_list_loop
       |intros [[e sl] u] He; cbn [fst] in He; subst e; cbn [negb Z.eqb];
        apply IH
       |intros [[e sl] u]; destruct (Z.eqb_spec e 0) as [->|Hne];
        [left; reflexivity|right]; cbn [negb];
        apply dead_ret; exact Hne]).
Qed.

Lemma decode_scaling_matrix_only_frame (c : Z) (s : machine) :
  exists e s',
    decode_scaling_matrix c s = (Go e, s') /\ (e = 0 \/ e = EBADMSG).
Proof.
  unfold decode_scaling_matrix.
  pose proof (decode_scaling_matrix_loop_frame
                (if negb (c =? 3) then 8%nat else 12%nat) 0
                (repeat 0 16) (repeat 0 64) (repeat false 12) s) as H.
  destruct (decode_scaling_matrix_loop _ _ _ _ _ s) as [[e|e] s'];
    unfold skipper_post in H; [|contradiction].
  exists e, s'. split; [reflexivity|].
  destruct H as (_ & _ & [H|[H _]]); auto.
Qed.

Lemma sim_bind_decode_scaling_matrix {B} (n : Z) (good : B -> Prop)
    (c : Z) (k : Z -> M B) :
  sim 0 good (k 0) -> dead good (k EBADMSG) ->
  sim n good (bind (decode_scaling_matrix c) k).
Proof.
  intros Hk Hd s s' b t Hs Hl H Hb. unfold bind in *.
  destruct (decode_scaling_matrix_only_frame c s) as (e & s1 & Hr & He).
  rewrite Hr in H.
  destruct He as [-> | ->]; [|exfalso; exact (Hd _ _ _ H Hb)].
  destruct (sim_decode_scaling_matrix_loop _ _ _ _ _ s s' 0 s1 Hs
              (getbit_get_left_nonneg _) Hr eq_refl) as (s1' & Hr' & Hs1).
  unfold decode_scaling_matrix. rewrite Hr'.
  apply (Hk s1 s1' b t); auto. apply getbit_get_left_nonneg.
Qed.

Lemma sim_store (n : Z) (good : unit -> Prop) (f : h264_sps -> h264_sps) :
  sim n good (store f).
Proof.
  intros s s' a t [Hsp Hx] _ H _. unfold store in *. injection H as <- <-.
  eexists. split; [reflexivity|].
  split; cbn [m_sps m_gb]; [rewrite Hsp; reflexivity|exact Hx].
Qed.

Lemma sim_return_if (n : Z) (good : unit -> Prop) (c : bool) (e : Z) :
  sim n good (return_if c e).
Proof. destruct c; [apply sim_Return|apply sim_ret]. Qed.

Lemma dead_return_if_bare (good : unit -> Prop) (c : bool) (e : Z) :
  c = true -> dead good (return_if c e).
Proof. intros -> s b t H. discriminate H. Qed.

(** A failed read leads to a [return] with its code. *)
Ltac dead_step :=
  cbv beta iota zeta;
  lazymatch goal with
  | |- dead _ (bind (return_if _ _) _) => apply dead_return_if; reflexivity
  | |- dead _ (return_if _ _) => apply dead_return_if_bare; reflexivity
  | |- dead _ (bind (ue _) _) => apply dead_bind_ue; [intros ?|]
  | |- dead _ (bind ue_null _) => apply dead_bind_ue_null
  end.

(** One statement of the code under [sim]. *)
Ltac sim_step :=
  cbv beta iota zeta;
  lazymatch goal with
  | |- sim _ _ (ret _) => apply sim_ret
  | |- sim _ _ (Return _) => apply sim_Return
  | |- sim _ _ (return_if _ _) => apply sim_return_if
  | |- sim _ _ (store _) => apply sim_store
  | |- sim _ _ (bind bits_left _) => apply sim_bits_left_check
  | |- sim _ _ (bind bit _) => apply sim_bind_bit; [lia|intros ?]
  | |- sim _ _ (bind (ue _) _) =>
      apply sim_bind_ue; [intros ?|repeat dead_step]
  | |- sim _ _ (bind ue_null _) =>
      apply sim_bind_ue_null; [|repeat dead_step]
  | |- sim _ _ (bind (ue_sps _ _) _) =>
      apply sim_bind_ue_sps; [|repeat dead_step]
  | |- sim _ _ (bind (decode_scaling_matrix _) _) =>
      apply sim_bind_decode_scaling_matrix; [|repeat dead_step]
  | |- sim _ _ (bind (return_if _ _) _) =>
      apply sim_bind_return_if; intros ?
  | |- sim _ _ (bind load _) => apply sim_bind_load; intros ?
  | |- sim _ _ (bind (store _) _) => apply sim_bind_store
  | |- sim _ _ (bind (if _ then _ else _) _) =>
      apply sim_bind_all; [|intros ?]
  | |- sim _ _ (if ?c then _ else _) => destruct c
  end.

(** From [getbit_init] on, a run of the decoder that reaches the final
    [return] is matched on the extended buffer. *)
Lemma h264_sps_decode_body_extends (buffer extra : list byte)
    (s : machine) (e : Z) (t : machine) :
  3 <= Z.of_nat (length buffer) ->
  Z.of_nat (length (buffer ++ extra)) < 2 ^ 61 ->
  h264_sps_decode_body buffer (Z.of_nat (length buffer)) s = (Go e, t) ->
  exists t',
    h264_sps_decode_body (buffer ++ extra)
      (Z.of_nat (length (buffer ++ extra))) s = (Go e, t') /\
    m_sps t' = m_sps t.
Proof.
  intros Hl Hlen. unfold h264_sps_decode_body.
  assert (H0 : nth 0 (buffer ++ extra) x00 = nth 0 buffer x00)
    by (apply app_nth1; lia).
  assert (H2 : nth 2 (buffer ++ extra) x00 = nth 2 buffer x00)
    by (apply app_nth1; lia).
  rewrite H0, H2.
  repeat (match goal with
          | |- context [bind (store ?f) ?k ?s0] =>
              erewrite (bind_go (store f) k s0) by reflexivity
          | |- context [bind (init_gb ?b ?z) ?k ?s0] =>
              erewrite (bind_go (init_gb b z) k s0) by reflexivity
          end; cbv beta zeta).
  match goal with
  | |- ?rest ?s0 = _ -> exists t', ?rest' ?s0' = _ /\ _ =>
      assert (Hsim : sim 0 (fun _ => True) rest);
      [|intros H;
        destruct (Hsim s0 s0' e t) as (t' & Ht' & Hsp & _);
        [| |exact H|exact I|exists t'; split; [exact Ht'|exact Hsp]]]
  end.
  - repeat sim_step.
  - split; cbn [m_sps m_gb]; [reflexivity|].
    unfold extends, getbit_init; cbn [buf pos end_].
    rewrite length_app in Hlen.
    split; [exists extra; rewrite skipn_app;
            replace (3 - length buffer)%nat with 0%nat by lia;
            reflexivity|].
    rewrite length_skipn, length_app. unfold u64.
    rewrite !Z.mod_small by lia. repeat split; lia.
  - apply getbit_get_left_nonneg.
Qed.

(** X16. Bytes behind the stream are ignored: a buffer that is decoded
    with code 0 is decoded to the same record when any bytes are
    appended to it.  The length is to stay below 2^61, so that the bit
    length [(len - 3) * 8] handed to [getbit_init] does not wrap as a
    [size_t]. *)
Theorem sps_decode_ignores_trailing_bytes (sps : h264_sps)
    (buffer extra : list byte) (sp : h264_sps) :
  Z.of_nat (length (buffer ++ extra)) < 2 ^ 61 ->
  h264_sps_decode sps buffer = (0, sp) ->
  h264_sps_decode sps (buffer ++ extra) = (0, sp).
Proof.
  intros Hlen. unfold h264_sps_decode, h264_sps_decode_run.
  destruct (Z.ltb_spec (Z.of_nat (length buffer)) 3) as [Hl|Hl];
    [intros H; vm_compute in H; discriminate H|].
  destruct (Z.ltb_spec (Z.of_nat (length (buffer ++ extra))) 3) as [Hl'|_];
    [rewrite length_app in Hl'; lia|].
  pose proof (h264_sps_decode_body_post buffer
                (Z.of_nat (length buffer))
                (mk_machine sps gb_unused)) as Hq.
  pose proof (h264_sps_decode_body_extends buffer extra
                (mk_machine sps gb_unused)) as Hx.
  unfold wp, exec in *.
  destruct (h264_sps_decode_body buffer _ _) as [[e|e] t];
    intros H; injection H as He Hsp.
  2:{ subst e. destruct Hq as ([Hq|[Hq _]] & _);
        vm_compute in Hq; discriminate Hq. }
  destruct (Hx e t Hl Hlen eq_refl) as (t' & Ht' & Hsp').
  rewrite Ht'. rewrite Hsp', Hsp, He. reflexivity.
Qed.

Lemma sps_decode_ignores_trailing_bytes_witness :
  (Z.of_nat (length ([x42; x00; x1e; xdd; xe0] ++ [xff; x00; xa5]))
   < 2 ^ 61 /\
   h264_sps_decode sps_zero [x42; x00; x1e; xdd; xe0]
   = (0, sps_baseline_16x16)) /\
  h264_sps_decode sps_zero ([x42; x00; x1e; xdd; xe0] ++ [xff; x00; xa5])
  = (0, sps_baseline_16x16).
Proof.
  assert (H1 : Z.of_nat
                 (length ([x42; x00; x1e; xdd; xe0] ++ [xff; x00; xa5]))
               < 2 ^ 61)
    by (vm_compute; reflexivity).
  assert (H2 : h264_sps_decode sps_zero [x42; x00; x1e; xdd; xe0]
               = (0, sps_baseline_16x16))
    by (vm_compute; reflexivity).
  split; [split; assumption|].
  exact (sps_decode_ignores_trailing_bytes sps_zero _ _ _ H1 H2).
Defined.
